(** * IMDb_EDA: the top-100 pipeline of [src/IMDb_EDA.py]

    A shallow embedding of the script's four functions
    ([get_top_100_movies], [analyze_data], [create_visualizations],
    [top_movies_by_genre]) and of its [__main__] block, together with the
    pandas operations they call.

    Conventions.
    - A text cell of a parsed table is an [option string]; [None] is the
      missing value (NaN / [pd.NA]).
    - float64 values are rationals ([Q]); rounding is not modelled.
    - An exception is a value of [exn]; fallible code returns a [result].
    - A dataframe that is passed by reference lives in a heap; the
      functions that receive it run in the monad [M].
    - The row labels of a frame are not modelled: every selection and
      column assignment of the script is between a frame and series
      computed from that same frame, so rows correspond by position.
    - Three library functions whose code decides nothing here but whose
      result the pipeline depends on are parameters of the program:
      [np.argsort], the numeric parser of [pd.to_numeric], and
      [Series.str.contains] on one cell (its regular-expression engine
      and its answer for a missing cell differ between versions of
      pandas). The properties use of each only its contract; the
      examples run numpy's generic quicksort, modelled in [Npy], or a
      stable argsort, and the substring test for [str.contains]. *)

From Stdlib Require Import ZArith QArith String Ascii List Bool Arith Lia.
From Stdlib Require Import Permutation Sorted DecimalString.
Import ListNotations.

Local Open Scope Z_scope.

(** ** Exceptions and results *)

Inductive exn : Type :=
| TypeError    (* astype('Int64'): cannot safely cast non-equivalent float64 *)
| ValueError   (* insert: length of values does not match length of index;
                  boolean mask containing NA; a plot of a column that
                  the data does not have *)
| IndexError   (* positional access out of bounds *)
| PatternError (* re.error: the text is not a regular expression *).

Inductive result (A : Type) : Type :=
| Ok (a : A)
| Raise (e : exn).

Arguments Ok {A} a.
Arguments Raise {A} e.

Definition rbind {A B} (r : result A) (k : A -> result B) : result B :=
  match r with
  | Ok a => k a
  | Raise e => Raise e
  end.

Fixpoint mapM {A B} (f : A -> result B) (l : list A) : result (list B) :=
  match l with
  | [] => Ok []
  | x :: xs =>
      rbind (f x) (fun y => rbind (mapM f xs) (fun ys => Ok (y :: ys)))
  end.

(** ** Strings *)

Definition cell := option string.

(** The literal marker the IMDb files use for a missing value: a backslash
    followed by [N] (Python ['\\N']). *)
Definition missing_marker : string := "\N".

(** [s.split(sep)] for a one-character separator: never the empty list,
    [''.split(',') = ['']]. *)
Fixpoint str_split (sep : ascii) (s : string) : list string :=
  match s with
  | EmptyString => [EmptyString]
  | String c rest =>
      if Ascii.eqb c sep then EmptyString :: str_split sep rest
      else match str_split sep rest with
           | [] => [String c EmptyString]
           | hd :: tl => String c hd :: tl
           end
  end.

(** The substring test: [pat] occurs somewhere in [s]. *)
Fixpoint str_contains (pat s : string) : bool :=
  if String.prefix pat s then true
  else match s with
       | EmptyString => false
       | String _ rest => str_contains pat rest
       end.

(** The characters that a regular expression reads as operators. *)
Definition regex_special (c : ascii) : bool :=
  existsb (Ascii.eqb c) (list_ascii_of_string ".^$*+?{}[]\|()").

(** A text without such characters is a regular expression that denotes
    itself: searching it is the substring test. Every IMDb genre label
    (letters, hyphens, blanks) is one. *)
Definition plain_pattern (pat : string) : bool :=
  forallb (fun c => negb (regex_special c)) (list_ascii_of_string pat).

(** ** The two parsed input tables *)

Module Basics.
(** title.basics: the columns the pipeline keeps. *)
Record row : Type := {
  tconst : string;
  titleType : cell;
  primaryTitle : cell;
  startYear : cell;
  runtimeMinutes : cell;
  genres : cell
}.
End Basics.

Module Ratings.
(** title.ratings: numeric columns as read_csv parses them. *)
Record row : Type := {
  tconst : string;
  averageRating : Q;
  numVotes : Z
}.
End Ratings.

Module Merged.
(** A row of [basics.merge(ratings, on='tconst')]. *)
Record row : Type := {
  tconst : string;
  titleType : cell;
  primaryTitle : cell;
  startYear : cell;
  runtimeMinutes : cell;
  genres : cell;
  averageRating : Q;
  numVotes : Z
}.
End Merged.

Module Movies.
(** A row of the working table [movies] after the two numeric columns
    have been converted (lines 26 and 27). *)
Record row : Type := {
  primaryTitle : cell;
  startYear : option Z;        (* Int64, nullable *)
  runtimeMinutes : option Q;   (* float64, NaN when absent *)
  genres : cell;
  averageRating : Q;
  numVotes : Z
}.
End Movies.

(** A row of the table [get_top_100_movies] returns. Every field but
    [Rank] may be absent. *)
Record Movie : Type := {
  Rank : Z;
  Title : cell;
  Year : option Z;
  Rating : option Q;
  Votes : option Z;
  Runtime : option Q;
  Genres : cell
}.

(** ** pandas operations on the working table *)

Definition join_row (b : Basics.row) (r : Ratings.row) : Merged.row :=
  {| Merged.tconst := Basics.tconst b;
     Merged.titleType := Basics.titleType b;
     Merged.primaryTitle := Basics.primaryTitle b;
     Merged.startYear := Basics.startYear b;
     Merged.runtimeMinutes := Basics.runtimeMinutes b;
     Merged.genres := Basics.genres b;
     Merged.averageRating := Ratings.averageRating r;
     Merged.numVotes := Ratings.numVotes r |}.

(** [basics.merge(ratings, on='tconst')]: inner join, left order kept. *)
Definition merge (basics : list Basics.row) (ratings : list Ratings.row)
  : list Merged.row :=
  flat_map
    (fun b =>
       map (join_row b)
           (filter (fun r => String.eqb (Basics.tconst b) (Ratings.tconst r))
                   ratings))
    basics.

(** [movies['titleType'] == 'movie'] on one row; a missing cell compares
    unequal. *)
Definition is_movie (m : Merged.row) : bool :=
  match Merged.titleType m with
  | Some t => String.eqb t "movie"
  | None => false
  end.

(** [replace('\\N', pd.NA)] on one text cell. *)
Definition replace_marker (c : cell) : cell :=
  match c with
  | Some s => if String.eqb s missing_marker then None else Some s
  | None => None
  end.

(** The integers an int64 holds. *)
Definition in_int64 (z : Z) : bool := (- 2 ^ 63 <=? z) && (z <? 2 ^ 63).

(** [astype('Int64')] on one float64 value: NaN becomes [<NA>]; a value
    is cast to int64 and accepted when the cast gives the value back,
    that is, when it is an integer that an int64 holds; anything else is
    refused. *)
Definition as_Int64 (x : option Q) : result (option Z) :=
  match x with
  | None => Ok None
  | Some q =>
      if Pos.eqb (Qden (Qred q)) 1 && in_int64 (Qnum (Qred q))
      then Ok (Some (Qnum (Qred q)))
      else Raise TypeError
  end.

(** [range(a, b)] for [a <= b], as integers. *)
Definition range (a b : Z) : list Z :=
  map (fun k => a + Z.of_nat k) (seq 0 (Z.to_nat (b - a))).

(** [DataFrame.take] along the rows; an index out of bounds raises. *)
Definition take {A} (indexer : list nat) (l : list A) : result (list A) :=
  mapM (fun i => match nth_error l i with
                 | Some x => Ok x
                 | None => Raise IndexError
                 end) indexer.

(** ** The dataframe object and the heap *)

(** A row of a dataframe object: the seven public columns and the values
    of the columns assigned after the table was built. *)
Record FrameRow : Type := {
  movie : Movie;
  extras : list (option Z)
}.

(** A dataframe object. [extra_columns] names the columns assigned after
    the table was built, in the order they were added; every such column
    in this program is a nullable integer column. *)
Record DataFrame : Type := {
  extra_columns : list string;
  rows : list FrameRow
}.

Definition public_columns : list string :=
  ["Rank"; "Title"; "Year"; "Rating"; "Votes"; "Runtime (min)";
   "Genres"]%string.

(** [df.columns]. *)
Definition columns (df : DataFrame) : list string :=
  public_columns ++ extra_columns df.

Fixpoint index_of (name : string) (l : list string) : option nat :=
  match l with
  | [] => None
  | x :: xs =>
      if String.eqb name x then Some O
      else option_map S (index_of name xs)
  end.

Fixpoint set_nth {A} (n : nat) (x : A) (l : list A) : list A :=
  match l, n with
  | [], _ => []
  | _ :: tl, O => x :: tl
  | hd :: tl, S n' => hd :: set_nth n' x tl
  end.

(** [df[name]] for a column assigned after the table was built. *)
Definition getitem (name : string) (df : DataFrame)
  : option (list (option Z)) :=
  match index_of name (extra_columns df) with
  | Some p => Some (map (fun r => nth p (extras r) None) (rows df))
  | None => None
  end.

(** [df[name] = values] for a name outside the seven public columns and a
    series computed from [df] itself (same index, same length): an
    existing column is overwritten, a new one is appended. *)
Definition setitem (name : string) (values : list (option Z))
           (df : DataFrame) : DataFrame :=
  match index_of name (extra_columns df) with
  | Some p =>
      {| extra_columns := extra_columns df;
         rows := map (fun rv =>
                        {| movie := movie (fst rv);
                           extras := set_nth p (snd rv) (extras (fst rv)) |})
                     (combine (rows df) values) |}
  | None =>
      {| extra_columns := extra_columns df ++ [name];
         rows := map (fun rv =>
                        {| movie := movie (fst rv);
                           extras := extras (fst rv) ++ [snd rv] |})
                     (combine (rows df) values) |}
  end.

(** The table [get_top_100_movies] returns, as a dataframe object. *)
Definition frame_of (table : list Movie) : DataFrame :=
  {| extra_columns := [];
     rows := map (fun m => {| movie := m; extras := [] |}) table |}.

(** What the script prints; numbers are kept as numbers, their text
    formatting is not modelled. *)
Inductive printed : Type :=
| Text (s : string)
| TotalMovies (n : nat)
| AverageRating (x : option Q)
| AverageRuntime (x : option Q)
| TotalVotes (z : Z)
| OldestMovie (y : option Z) (title : cell)
| NewestMovie (y : option Z) (title : cell)
| GenreCount (genre : string) (n : nat)
| TopByRating (genre : string) (table : list (cell * option Q * option Z))
| TopByVotes (genre : string) (table : list (cell * option Z * option Z)).

(** The data handed to the four panels of the figure. *)
Record figure : Type := {
  scatter : list (option Q * option Z * option Q);
  decade_bars : list (Z * nat);
  genre_violins : list (string * option Q);
  runtime_hist : list (option Q);
  runtime_mean : option Q
}.

Inductive file_content : Type :=
| Csv (table : DataFrame)
| Png (fig : figure).

Definition loc := nat.

(** The state the script acts on: dataframe objects by reference, the
    standard output, and the files written. *)
Record World : Type := {
  heap : list DataFrame;
  stdout : list printed;
  files : list (string * file_content)
}.

(** Computations that read and write the world and may raise; the world
    reached when an exception is raised is kept. *)
Definition M (A : Type) : Type := World -> result A * World.

Definition ret {A} (a : A) : M A := fun w => (Ok a, w).

Definition bind {A B} (c : M A) (k : A -> M B) : M B :=
  fun w =>
    match c w with
    | (Ok a, w') => k a w'
    | (Raise e, w') => (Raise e, w')
    end.

Notation "x <- c ;; k" := (bind c (fun x => k))
  (at level 61, c at next level, right associativity).
Notation "c ;;; k" := (bind c (fun _ => k))
  (at level 61, right associativity).

(** A [result] computed without touching the world. *)
Definition lift {A} (r : result A) : M A := fun w => (r, w).

(** Reading the object a reference points to. A reference handed out by
    [alloc] never dangles. *)
Definition deref (l : loc) : M DataFrame :=
  fun w =>
    match nth_error (heap w) l with
    | Some df => (Ok df, w)
    | None => (Raise IndexError, w)
    end.

(** A new object. *)
Definition alloc (df : DataFrame) : M loc :=
  fun w =>
    (Ok (length (heap w)),
     {| heap := heap w ++ [df]; stdout := stdout w; files := files w |}).

(** In-place update of the object a reference points to. *)
Definition store (l : loc) (df : DataFrame) : M unit :=
  fun w =>
    (Ok tt,
     {| heap := set_nth l df (heap w); stdout := stdout w;
        files := files w |}).

Definition print (p : printed) : M unit :=
  fun w =>
    (Ok tt,
     {| heap := heap w; stdout := stdout w ++ [p]; files := files w |}).

(** Writing a file, replacing one of the same name. *)
Definition write_file (name : string) (c : file_content) : M unit :=
  fun w =>
    (Ok tt,
     {| heap := heap w; stdout := stdout w;
        files := (name, c)
                   :: filter (fun f => negb (String.eqb name (fst f)))
                             (files w) |}).

Fixpoint for_each {A} (l : list A) (body : A -> M unit) : M unit :=
  match l with
  | [] => ret tt
  | x :: xs => body x ;;; for_each xs body
  end.

(** ** Column operations *)

(** A public column of a dataframe object. *)
Definition column {A} (f : Movie -> A) (df : DataFrame) : list A :=
  map (fun r => f (movie r)) (rows df).

(** [Series.dropna()]. *)
Fixpoint dropna {A} (l : list (option A)) : list A :=
  match l with
  | [] => []
  | Some x :: xs => x :: dropna xs
  | None :: xs => dropna xs
  end.

(** [Series.mean()] of a float column: missing values are skipped, the
    mean of nothing is NaN. *)
Definition mean (l : list (option Q)) : option Q :=
  match dropna l with
  | [] => None
  | x :: xs =>
      Some (Qdiv (fold_left Qplus xs x)
                 (inject_Z (Z.of_nat (length (x :: xs)))))
  end.

(** Two's complement wrap-around of a 64-bit integer. *)
Definition wrap64 (z : Z) : Z :=
  (z + 2 ^ 63) mod 2 ^ 64 - 2 ^ 63.

(** [Series.sum()] of the vote column: missing values are skipped. *)
Definition sum_votes (l : list (option Z)) : Z :=
  wrap64 (fold_left Z.add (dropna l) 0).

(** [Series.min()] and [Series.max()] of a nullable integer column. *)
Definition min_Int64 (l : list (option Z)) : option Z :=
  match dropna l with
  | [] => None
  | x :: xs => Some (fold_left Z.min xs x)
  end.

Definition max_Int64 (l : list (option Z)) : option Z :=
  match dropna l with
  | [] => None
  | x :: xs => Some (fold_left Z.max xs x)
  end.

(** [df['Year'] == y] on one row; in a nullable boolean mask a missing
    entry selects nothing. *)
Definition year_is (y : option Z) (r : FrameRow) : bool :=
  match y, Year (movie r) with
  | Some a, Some b => Z.eqb a b
  | _, _ => false
  end.

(** [df[df['Year'] == y]['Title'].values[0]]. *)
Definition title_of_year (y : option Z) (df : DataFrame) : result cell :=
  match filter (year_is y) (rows df) with
  | [] => Raise IndexError
  | r :: _ => Ok (Title (movie r))
  end.

(** [Series.str.split(',')] followed by [explode()], on one cell: a
    missing cell stays one missing entry. *)
Definition split_genres (c : cell) : list cell :=
  match c with
  | Some s => map Some (str_split "," s)
  | None => [None]
  end.

(** [df['Genres'].str.split(',').explode()]. *)
Definition all_genres (df : DataFrame) : list cell :=
  flat_map split_genres (column Genres df).

(** The distinct values of a list, in order of first appearance. *)
Fixpoint uniques {K} (eqb : K -> K -> bool) (l : list K) : list K :=
  match l with
  | [] => []
  | x :: xs => x :: filter (fun y => negb (eqb x y)) (uniques eqb xs)
  end.

(** The number of entries of a list equal to [x]. *)
Definition occurrences {K} (eqb : K -> K -> bool) (x : K) (l : list K)
  : nat :=
  length (filter (eqb x) l).

(** The table [value_counts] builds before sorting it: each distinct
    value with its number of occurrences, in order of first appearance. *)
Definition count_table {K} (eqb : K -> K -> bool) (l : list K)
  : list (K * nat) :=
  map (fun x => (x, occurrences eqb x l)) (uniques eqb l).

(** A stable sort: [sorted] by insertion; an element goes in front of the
    first element it may precede, so equal keys keep their order. *)
Fixpoint insert_sorted {A} (leb : A -> A -> bool) (x : A) (l : list A)
  : list A :=
  match l with
  | [] => [x]
  | y :: ys => if leb x y then x :: y :: ys
               else y :: insert_sorted leb x ys
  end.

Definition stable_sort {A} (leb : A -> A -> bool) (l : list A) : list A :=
  fold_right (insert_sorted leb) [] l.

(** Order of a key column with missing values last. *)
Definition na_last {A} (leb : A -> A -> bool) (x y : option A) : bool :=
  match x, y with
  | Some a, Some b => leb a b
  | Some _, None => true
  | None, Some _ => false
  | None, None => true
  end.

Definition na_eqb {A} (eqb : A -> A -> bool) (x y : option A) : bool :=
  match x, y with
  | Some a, Some b => eqb a b
  | None, None => true
  | _, _ => false
  end.

(** [sort_values(['Genres', key], ascending=[True, False])]: the order of
    two rows, first by label ascending, then by [key] descending, missing
    values last in both. Sorting on several columns is stable in pandas
    whatever [kind] is. *)
Definition genre_then_desc {A} (key : Movie -> option A)
           (leb : A -> A -> bool) (r1 r2 : FrameRow) : bool :=
  if na_eqb String.eqb (Genres (movie r1)) (Genres (movie r2))
  then na_last (fun a b => leb b a) (key (movie r1)) (key (movie r2))
  else na_last String.leb (Genres (movie r1)) (Genres (movie r2)).

(** A row with another [Genres] cell. *)
Definition with_genres (r : FrameRow) (g : cell) : FrameRow :=
  {| movie := {| Rank := Rank (movie r); Title := Title (movie r);
                 Year := Year (movie r); Rating := Rating (movie r);
                 Votes := Votes (movie r); Runtime := Runtime (movie r);
                 Genres := g |};
     extras := extras r |}.

(** [genre_df['Genres'] = genre_df['Genres'].str.split(',')] followed by
    [genre_df.explode('Genres')], on one row: one copy of the row per
    label, the label in [Genres]; every other column is repeated. *)
Definition explode_row (r : FrameRow) : list FrameRow :=
  map (with_genres r) (split_genres (Genres (movie r))).

Definition explode (df : DataFrame) : DataFrame :=
  {| extra_columns := extra_columns df;
     rows := flat_map explode_row (rows df) |}.

(** [frame[frame['Genres'] == genre]]. *)
Definition genre_is (genre : string) (r : FrameRow) : bool :=
  na_eqb String.eqb (Genres (movie r)) (Some genre).

(** [frame.groupby('Genres').head(n)]: the rows that are among the first
    [n] of their group, in the order of the frame; a row with a missing
    label is in no group. [seen] lists the labels of the rows passed. *)
Fixpoint groupby_head_from (seen : list string) (n : nat)
         (l : list FrameRow) : list FrameRow :=
  match l with
  | [] => []
  | r :: rs =>
      match Genres (movie r) with
      | None => groupby_head_from seen n rs
      | Some g =>
          if Nat.ltb (occurrences String.eqb g seen) n
          then r :: groupby_head_from (g :: seen) n rs
          else groupby_head_from (g :: seen) n rs
      end
  end.

Definition groupby_head (n : nat) (l : list FrameRow) : list FrameRow :=
  groupby_head_from [] n l.

(** [Index.is_monotonic_increasing]. *)
Fixpoint is_monotonic_increasing (l : list Z) : bool :=
  match l with
  | x :: (y :: _) as tl => (x <=? y) && is_monotonic_increasing tl
  | _ => true
  end.

(** [(df['Year'] // 10) * 10] on one entry; [//] rounds down. *)
Definition decade_of (y : option Z) : option Z :=
  option_map (fun y => (y / 10) * 10) y.

(** [df['Genres'].str.contains(genre)] is library code: it reads the
    label as a regular expression, and what it gives for a missing cell
    depends on the type pandas gave the column. The program takes its
    action on one cell as a parameter ([contains] below); the examples
    run one of two instances, both for labels that are plain patterns.
    With pandas 2 the column holds Python objects and a missing cell
    stays missing: *)
Definition contains_mask (genre : string) (c : cell) : result (option bool) :=
  Ok (option_map (str_contains genre) c).

(** with pandas 3 the column is a [str] column and a missing cell gives
    [False]. *)
Definition contains_or_false (genre : string) (c : cell)
  : result (option bool) :=
  Ok (Some (match c with
            | Some s => str_contains genre s
            | None => false
            end)).

(** [df[mask]]: a mask that holds a missing entry (a mask of Python
    objects then) is refused. *)
Fixpoint mask_select {A} (mask : list (option bool)) (l : list A)
  : result (list A) :=
  match mask, l with
  | Some b :: ms, x :: xs =>
      rbind (mask_select ms xs)
            (fun rest => Ok (if b then x :: rest else rest))
  | None :: _, _ :: _ => Raise ValueError
  | _, _ => Ok []
  end.

Section Program.

(** [np.argsort(v, kind='quicksort')], the algorithm pandas uses when
    [sort_values] is given no [kind]: the positions of [v] in ascending
    order of their values. *)
Variable argsort : list Z -> list nat.

(** [pd.to_numeric] on one text: the number it denotes, if any. *)
Variable to_numeric_text : string -> option Q.

(** [Series.str.contains(pat)] on one cell, with [regex=True] as the
    script leaves it: whether the regular expression [pat] is found in the
    cell; [PatternError] when [pat] is not a regular expression. *)
Variable contains : string -> cell -> result (option bool).

(** [pd.to_numeric(col, errors='coerce')] on one cell. *)
Definition to_numeric (c : cell) : option Q :=
  match c with
  | Some s => to_numeric_text s
  | None => None
  end.

(** Lines 23, 26 and 27 on one row. The conversions are column-wise in
    the source; a column conversion raises exactly when it raises on
    one of its cells. *)
Definition clean_row (m : Merged.row) : result Movies.row :=
  rbind (as_Int64 (to_numeric (replace_marker (Merged.startYear m))))
    (fun y =>
       Ok {| Movies.primaryTitle := replace_marker (Merged.primaryTitle m);
             Movies.startYear := y;
             Movies.runtimeMinutes :=
               to_numeric (replace_marker (Merged.runtimeMinutes m));
             Movies.genres := replace_marker (Merged.genres m);
             Movies.averageRating := Merged.averageRating m;
             Movies.numVotes := Merged.numVotes m |}).

(** [pandas.core.sorting.nargsort] on an integer column without missing
    values: for a descending sort the column and its positions are
    reversed, sorted ascending, and the result is reversed again. *)
Definition nargsort (items : list Z) (ascending : bool) : list nat :=
  let idx := seq 0 (length items) in
  if ascending then map (fun i => nth i idx 0%nat) (argsort items)
  else rev (map (fun i => nth i (rev idx) 0%nat) (argsort (rev items))).

(** [movies.sort_values('numVotes', ascending=False)]. *)
Definition sort_values_numVotes (movies : list Movies.row)
  : result (list Movies.row) :=
  take (nargsort (map Movies.numVotes movies) false) movies.

(** [movies.head(n)]. *)
Definition head {A} (n : nat) (l : list A) : list A := firstn n l.

(** [movies.insert(0, 'Rank', value)]. A table without rows first takes
    the index of [value] (its other columns are filled with missing
    values: [None] below is such a row); otherwise the lengths must
    agree. *)
Definition insert_Rank (value : list Z) (movies : list Movies.row)
  : result (list (Z * option Movies.row)) :=
  match movies with
  | [] => Ok (map (fun k => (k, None)) value)
  | _ :: _ =>
      if Nat.eqb (length value) (length movies)
      then Ok (combine value (map Some movies))
      else Raise ValueError
  end.

(** Lines 34 to 43: rename and keep the seven public columns. *)
Definition select_renamed (r : Z * option Movies.row) : Movie :=
  match r with
  | (k, Some m) =>
      {| Rank := k;
         Title := Movies.primaryTitle m;
         Year := Movies.startYear m;
         Rating := Some (Movies.averageRating m);
         Votes := Some (Movies.numVotes m);
         Runtime := Movies.runtimeMinutes m;
         Genres := Movies.genres m |}
  | (k, None) =>
      {| Rank := k; Title := None; Year := None; Rating := None;
         Votes := None; Runtime := None; Genres := None |}
  end.

(** The rows that survive the join and the type filter (lines 19, 22). *)
Definition surviving (basics : list Basics.row) (ratings : list Ratings.row)
  : list Merged.row :=
  filter is_movie (merge basics ratings).

(** [get_top_100_movies], from the two parsed tables. *)
Definition get_top_100_movies
           (basics : list Basics.row) (ratings : list Ratings.row)
  : result (list Movie) :=
  let movies := surviving basics ratings in
  rbind (mapM clean_row movies) (fun movies =>
  rbind (sort_values_numVotes movies) (fun sorted =>
  let movies := head 100 sorted in
  rbind (insert_Rank (range 1 101) movies) (fun movies =>
  Ok (map select_renamed movies)))).

(** [Series.value_counts()]: the table of counts, which pandas then sorts
    by count, descending, with [sort_values] and no [kind]. *)
Definition value_counts {K} (eqb : K -> K -> bool) (l : list K)
  : result (list (K * nat)) :=
  let table := count_table eqb l in
  take (nargsort (map (fun p => Z.of_nat (snd p)) table) false) table.

(** [Series.sort_index()] of a table of counts keyed by integers: an
    index that is already in order is left alone. *)
Definition sort_index (table : list (Z * nat)) : result (list (Z * nat)) :=
  if is_monotonic_increasing (map fst table) then Ok table
  else take (nargsort (map fst table) true) table.

(** [all_genres.value_counts().head(n)]. *)
Definition top_genres (n : nat) (df : DataFrame)
  : result (list (string * nat)) :=
  rbind (value_counts String.eqb (dropna (all_genres df)))
        (fun counts => Ok (head n counts)).

(** ** analyze_data *)

Definition analyze_data (df : loc) : M unit :=
  d <- deref df ;;
  print (Text "===== Data Insights =====") ;;;
  print (TotalMovies (length (rows d))) ;;;
  print (AverageRating (mean (column Rating d))) ;;;
  print (AverageRuntime (mean (column Runtime d))) ;;;
  print (TotalVotes (sum_votes (column Votes d))) ;;;
  (let oldest := min_Int64 (column Year d) in
   title <- lift (title_of_year oldest d) ;;
   print (OldestMovie oldest title)) ;;;
  (let newest := max_Int64 (column Year d) in
   title <- lift (title_of_year newest d) ;;
   print (NewestMovie newest title)) ;;;
  top <- lift (top_genres 3 d) ;;
  print (Text "Top 3 Genres:") ;;;
  for_each top (fun gc => print (GenreCount (fst gc) (snd gc))).

(** ** create_visualizations *)

(** Line 123, [df[df['Genres'].str.contains(genre)]]: the rows in whose
    [Genres] cell the label is found. *)
Definition genre_movies (genre : string) (d : DataFrame)
  : result (list FrameRow) :=
  rbind (mapM (contains genre) (column Genres d))
        (fun mask => mask_select mask (rows d)).

(** The loop of lines 122 to 128: one entry per label and selected row,
    labels in the order given, rows in the order of the frame. *)
Fixpoint genre_data (labels : list string) (d : DataFrame)
  : result (list (string * option Q)) :=
  match labels with
  | [] => Ok []
  | genre :: more =>
      rbind (genre_movies genre d) (fun selected =>
      rbind (genre_data more d) (fun rest =>
      Ok (map (fun r => (genre, Rating (movie r))) selected ++ rest)))
  end.

(** The calls into seaborn and matplotlib read the frame and draw; the
    model keeps the data each panel is given. One of them is refused:
    when no entry was collected, [pd.DataFrame(genre_data)] has no
    column, and [sns.violinplot(x='Genre', ...)] raises [ValueError]. *)
Definition create_visualizations (df : loc) : M unit :=
  d <- deref df ;;
  let panel_a :=
    map (fun r => (Rating (movie r), Votes (movie r), Runtime (movie r)))
        (rows d) in
  store df (setitem "Decade" (map decade_of (column Year d)) d) ;;;
  d <- deref df ;;
  decades <- lift (match getitem "Decade" d with
                   | Some col => Ok col
                   | None => Raise IndexError
                   end) ;;
  counts <- lift (value_counts Z.eqb (dropna decades)) ;;
  decade_counts <- lift (sort_index counts) ;;
  top <- lift (top_genres 5 d) ;;
  violins <- lift (genre_data (map fst top) d) ;;
  lift (match violins with
        | [] => Raise ValueError
        | _ :: _ => Ok tt
        end) ;;;
  write_file "movie_analysis.png"
    (Png {| scatter := panel_a;
            decade_bars := decade_counts;
            genre_violins := violins;
            runtime_hist := column Runtime d;
            runtime_mean := mean (column Runtime d) |}) ;;;
  print (Text "Saved visualizations to 'movie_analysis.png'").

(** ** top_movies_by_genre *)

(** [frame[frame['Genres'] == genre].head(3)], with the three printed
    columns. *)
Definition print_top {A} (key : Movie -> option A) (genre : string)
           (frame : list FrameRow) : list (cell * option A * option Z) :=
  map (fun r => (Title (movie r), key (movie r), Year (movie r)))
      (head 3 (filter (genre_is genre) frame)).

(** [df.copy()] is a new object that nothing else refers to, so the
    assignment and the rebinding of lines 175 and 176 are local. *)
Definition top_movies_by_genre (df : loc) : M unit :=
  d <- deref df ;;
  let genre_df := explode d in
  let top_by_rating :=
    groupby_head 10
      (stable_sort (genre_then_desc Rating Qle_bool) (rows genre_df)) in
  let top_by_votes :=
    groupby_head 10
      (stable_sort (genre_then_desc Votes Z.leb) (rows genre_df)) in
  print (Text "===== Top Movies by Genre =====") ;;;
  top <- lift (rbind (value_counts String.eqb
                        (dropna (column Genres genre_df)))
                     (fun counts => Ok (head 3 counts))) ;;
  for_each (map fst top) (fun genre =>
    print (TopByRating genre (print_top Rating genre top_by_rating)) ;;;
    print (TopByVotes genre (print_top Votes genre top_by_votes))).

(** [frame[frame['Genres'] == genre]], with the three printed columns. *)
Definition print_all {A} (key : Movie -> option A) (genre : string)
           (frame : list FrameRow) : list (cell * option A * option Z) :=
  map (fun r => (Title (movie r), key (movie r), Year (movie r)))
      (filter (genre_is genre) frame).

(** The simplification the specification allows: the first three rows of
    each group are computed directly and printed as they are. *)
Definition top_movies_by_genre_top3 (df : loc) : M unit :=
  d <- deref df ;;
  let genre_df := explode d in
  let top_by_rating :=
    groupby_head 3
      (stable_sort (genre_then_desc Rating Qle_bool) (rows genre_df)) in
  let top_by_votes :=
    groupby_head 3
      (stable_sort (genre_then_desc Votes Z.leb) (rows genre_df)) in
  print (Text "===== Top Movies by Genre =====") ;;;
  top <- lift (rbind (value_counts String.eqb
                        (dropna (column Genres genre_df)))
                     (fun counts => Ok (head 3 counts))) ;;
  for_each (map fst top) (fun genre =>
    print (TopByRating genre (print_all Rating genre top_by_rating)) ;;;
    print (TopByVotes genre (print_all Votes genre top_by_votes))).

(** ** The script *)

(** [__main__] up to and including the call of [create_visualizations];
    the value is the reference held by the variable [movies]. *)
Definition main_through_visualize
           (basics : list Basics.row) (ratings : list Ratings.row) : M loc :=
  print (Text "IMDb Top 100 Movies Analysis") ;;;
  print (Text "============================") ;;;
  print (Text "Downloading and processing data...") ;;;
  table <- lift (get_top_100_movies basics ratings) ;;
  movies <- alloc (frame_of table) ;;
  (d <- deref movies ;; write_file "top_100_imdb_movies.csv" (Csv d)) ;;;
  print (Text "Saved top 100 movies to 'top_100_imdb_movies.csv'") ;;;
  analyze_data movies ;;;
  print (Text "Creating visualizations...") ;;;
  create_visualizations movies ;;;
  ret movies.

Definition main (basics : list Basics.row) (ratings : list Ratings.row)
  : M unit :=
  movies <- main_through_visualize basics ratings ;;
  top_movies_by_genre movies ;;;
  print (Text "Analysis complete! Check the generated files.").

End Program.

(** ** numpy's generic quicksort

    [npy_aquicksort] of numpy's [npysort/quicksort.cpp]: an introsort on
    the array of positions [tosort], with median-of-three partitioning,
    insertion sort for ranges of at most 17 entries and heapsort when the
    depth limit is exhausted. Pointers into [tosort] are integer offsets.

    This is the code [np.argsort(kind='quicksort')] runs where numpy
    dispatches no vectorised kernel. Where it does (int64 keys on x86-64
    with AVX2 or AVX-512), another kernel sorts, which is not modelled:
    it returns the positions in ascending order of their values too, and
    may order equal values differently. The properties rest on the
    contract only; where an example runs [Npy.aquicksort], the order of
    equal values either does not arise or is said to be that of this
    code. *)

Module Npy.

Definition SMALL_QUICKSORT : Z := 16.

(** [*p] and [v[*p]]. *)
Definition rd (a : list nat) (p : Z) : nat := nth (Z.to_nat p) a O.
Definition key (v : list Z) (a : list nat) (p : Z) : Z := nth (rd a p) v 0.

(** [*p = x] and [INTP_SWAP] of [*p] and [*q]. *)
Definition wr (a : list nat) (p : Z) (x : nat) : list nat :=
  set_nth (Z.to_nat p) x a.
Definition swap (a : list nat) (p q : Z) : list nat :=
  wr (wr a p (rd a q)) q (rd a p).

(** [npy_get_msb]. *)
Definition get_msb (num : Z) : Z := Z.log2 num.

(** [do { ++pi; } while (v[*pi] < vp);] *)
Fixpoint scan_up (fuel : nat) (v : list Z) (vp : Z) (a : list nat) (pi : Z)
  : Z :=
  let pi := pi + 1 in
  match fuel with
  | O => pi
  | S fuel' => if key v a pi <? vp then scan_up fuel' v vp a pi else pi
  end.

(** [do { --pj; } while (vp < v[*pj]);] *)
Fixpoint scan_down (fuel : nat) (v : list Z) (vp : Z) (a : list nat) (pj : Z)
  : Z :=
  let pj := pj - 1 in
  match fuel with
  | O => pj
  | S fuel' => if vp <? key v a pj then scan_down fuel' v vp a pj else pj
  end.

(** The [for (;;)] loop of the partition; the value is the array and the
    final [pi]. *)
Fixpoint hoare (fuel : nat) (v : list Z) (vp : Z) (a : list nat) (pi pj : Z)
  : list nat * Z :=
  let pi := scan_up (length a) v vp a pi in
  let pj := scan_down (length a) v vp a pj in
  if pj <=? pi then (a, pi)
  else match fuel with
       | O => (a, pi)
       | S fuel' => hoare fuel' v vp (swap a pi pj) pi pj
       end.

(** One pass of the body of [while ((pr - pl) > SMALL_QUICKSORT)], up to
    the final swap of the pivot into place. *)
Definition partition (v : list Z) (a : list nat) (pl pr : Z)
  : list nat * Z :=
  let pm := pl + Z.shiftr (pr - pl) 1 in
  let a := if key v a pm <? key v a pl then swap a pm pl else a in
  let a := if key v a pr <? key v a pm then swap a pr pm else a in
  let a := if key v a pm <? key v a pl then swap a pm pl else a in
  let vp := key v a pm in
  let pj := pr - 1 in
  let a := swap a pm pj in
  let '(a, pi) := hoare (length a) v vp a pl pj in
  (swap a pi (pr - 1), pi).

(** [while (pj > pl && vp < v[*pk]) { *pj-- = *pk--; }] *)
Fixpoint shift_up (fuel : nat) (v : list Z) (vp : Z) (a : list nat)
         (pl pj : Z) : list nat * Z :=
  match fuel with
  | O => (a, pj)
  | S fuel' =>
      if (pl <? pj) && (vp <? key v a (pj - 1))
      then shift_up fuel' v vp (wr a pj (rd a (pj - 1))) pl (pj - 1)
      else (a, pj)
  end.

(** The insertion sort of the range [pl .. pr]; [todo] counts the
    positions [pi] still to insert. *)
Fixpoint insertion (todo : nat) (v : list Z) (a : list nat) (pl pi : Z)
  : list nat :=
  match todo with
  | O => a
  | S todo' =>
      let vi := rd a pi in
      let vp := nth vi v 0 in
      let '(a, pj) := shift_up (length a) v vp a pl pi in
      insertion todo' v (wr a pj vi) pl (pi + 1)
  end.

(** The sift-down loop shared by the two phases of [aheapsort_]; the heap
    is the range of [n] entries that starts at offset [base], addressed
    from 1. *)
Fixpoint sift (fuel : nat) (v : list Z) (a : list nat) (base : Z)
         (tmp : nat) (n i j : Z) : list nat :=
  match fuel with
  | O => wr a (base + i) tmp
  | S fuel' =>
      if j <=? n then
        let j := if (j <? n)
                      && (key v a (base + j) <? key v a (base + j + 1))
                 then j + 1 else j in
        if nth tmp v 0 <? key v a (base + j)
        then sift fuel' v (wr a (base + i) (rd a (base + j))) base tmp
                  n j (j + j)
        else wr a (base + i) tmp
      else wr a (base + i) tmp
  end.

(** [for (l = n >> 1; l > 0; --l)]. *)
Fixpoint heapify (todo : nat) (v : list Z) (a : list nat) (base n l : Z)
  : list nat :=
  match todo with
  | O => a
  | S todo' =>
      let a := sift (length a) v a base (rd a (base + l)) n l (Z.shiftl l 1) in
      heapify todo' v a base n (l - 1)
  end.

(** [for (; n > 1;)]. *)
Fixpoint pop_max (todo : nat) (v : list Z) (a : list nat) (base n : Z)
  : list nat :=
  match todo with
  | O => a
  | S todo' =>
      let tmp := rd a (base + n) in
      let a := wr a (base + n) (rd a (base + 1)) in
      let n := n - 1 in
      pop_max todo' v (sift (length a) v a base tmp n 1 2) base n
  end.

(** [aheapsort_(vv, pl, n)]. *)
Definition aheapsort (v : list Z) (a : list nat) (pl n : Z) : list nat :=
  let base := pl - 1 in
  let a := heapify (Z.to_nat (Z.shiftr n 1)) v a base n (Z.shiftr n 1) in
  pop_max (Z.to_nat (n - 1)) v a base n.

(** The outer [while (1)] loop. [stack] holds the ranges pushed with the
    depth saved for each; [top] tells whether control is at the head of
    the outer loop, where the depth limit is tested. *)
Fixpoint loop (fuel : nat) (v : list Z) (a : list nat) (pl pr : Z)
         (stack : list (Z * Z * Z)) (cdepth : Z) (top : bool) : list nat :=
  match fuel with
  | O => a
  | S fuel' =>
      let pop a :=
        match stack with
        | [] => a
        | (pl', pr', d) :: rest => loop fuel' v a pl' pr' rest d true
        end in
      if top && (cdepth <? 0) then pop (aheapsort v a pl (pr - pl + 1))
      else if SMALL_QUICKSORT <? pr - pl then
        let '(a, pi) := partition v a pl pr in
        let cdepth := cdepth - 1 in
        if pi - pl <? pr - pi
        then loop fuel' v a pl (pi - 1) ((pi + 1, pr, cdepth) :: stack)
                  cdepth false
        else loop fuel' v a (pi + 1) pr ((pl, pi - 1, cdepth) :: stack)
                  cdepth false
      else pop (insertion (Z.to_nat (pr - pl)) v a pl (pl + 1))
  end.

(** [np.argsort(v, kind='quicksort')]: the positions start in order. *)
Definition aquicksort (v : list Z) : list nat :=
  let num := Z.of_nat (length v) in
  loop (2 * length v + 2) v (seq 0 (length v)) 0 (num - 1) []
       (get_msb num * 2) true.

End Npy.

(** ** A stable argsort and a reader of decimal numerals *)

(** [np.argsort(v, kind='stable')]: positions in ascending order of their
    values, equal values in order of position. *)
Definition stable_argsort (v : list Z) : list nat :=
  map fst (stable_sort (fun p q => Z.leb (snd p) (snd q))
                       (combine (seq 0 (length v)) v)).

Definition digit_of (c : ascii) : option Z :=
  let n := Z.of_nat (nat_of_ascii c) in
  if (48 <=? n) && (n <=? 57) then Some (n - 48) else None.

Fixpoint digits_from (acc : Z) (s : string) : option Z :=
  match s with
  | EmptyString => Some acc
  | String c rest =>
      match digit_of c with
      | Some d => digits_from (10 * acc + d) rest
      | None => None
      end
  end.

(** What [pd.to_numeric] reads in a text made of decimal digits only;
    the examples use no other numerals. *)
Definition decimal_text (s : string) : option Q :=
  match s with
  | EmptyString => None
  | _ => option_map inject_Z (digits_from 0 s)
  end.

(** ** Notions used to state the properties *)

(** What [np.argsort] promises whatever the [kind]: the positions of the
    array, each once, in ascending order of their values. *)
Definition argsort_spec (argsort : list Z -> list nat) : Prop :=
  forall v,
    Permutation (argsort v) (seq 0 (length v)) /\
    Sorted Z.le (map (fun i => nth i v 0) (argsort v)).

(** Each entry is at most the one before it. *)
Definition non_increasing (votes : list Z) : Prop :=
  Sorted (fun a b => b <= a) votes.

(** [astype('Int64')] accepts this value. *)
Definition castable (x : option Q) : bool :=
  match as_Int64 x with
  | Ok _ => true
  | Raise _ => false
  end.

(** [astype('Int64')] accepts the year column of these rows. *)
Definition years_castable (to_numeric_text : string -> option Q)
           (l : list Merged.row) : bool :=
  forallb (fun m => castable (to_numeric to_numeric_text
                                (replace_marker (Merged.startYear m)))) l.

(** The [Votes] column has no missing entry and is non-increasing. *)
Definition votes_non_increasing (table : list Movie) : Prop :=
  exists votes, map Votes table = map Some votes /\ non_increasing votes.

(** An argsort is stable when positions of equal values come out in
    ascending order ([kind='stable'] or [kind='mergesort']). *)
Definition argsort_stable (argsort : list Z -> list nat) : Prop :=
  forall v k,
    filter (fun i => nth i v 0 =? k) (argsort v)
    = filter (fun i => nth i v 0 =? k) (seq 0 (length v)).

(** The order the specification describes: votes descending, rows with
    equal votes in the order of the table before the sort. *)
Definition more_votes (a b : Movies.row) : bool :=
  Z.leb (Movies.numVotes b) (Movies.numVotes a).

(** [sort_values('numVotes', ascending=False, kind='stable')], as the
    specification words the step. *)
Definition sort_values_stable (movies : list Movies.row)
  : list Movies.row :=
  stable_sort more_votes movies.

(** The labels of a frame, one entry per label of each row. *)
Definition labels (df : DataFrame) : list string := dropna (all_genres df).

(** A computation leaves a part of the world as it found it, whether it
    returns or raises. *)
Definition preserves {X A} (part : World -> X) (c : M A) : Prop :=
  forall w, part (snd (c w)) = part w.

(** Every row has a value for each column assigned after the table was
    built. *)
Definition well_formed (d : DataFrame) : Prop :=
  Forall (fun r => length (extras r) = length (extra_columns d)) (rows d).

(** What the properties use of [Series.str.contains]: in a present cell a
    plain pattern is searched as a substring; for a missing cell the
    answer is missing (a column of Python objects, pandas 2) or [False]
    (a [str] column, pandas 3). *)
Definition contains_spec (contains : string -> cell -> result (option bool))
  : Prop :=
  (forall pat s,
      plain_pattern pat = true ->
      contains pat (Some s) = Ok (Some (str_contains pat s))) /\
  (forall pat,
      plain_pattern pat = true ->
      contains pat None = Ok None \/ contains pat None = Ok (Some false)).

Definition missing_stays_missing
           (contains : string -> cell -> result (option bool)) : Prop :=
  forall pat, plain_pattern pat = true -> contains pat None = Ok None.

Definition missing_is_false
           (contains : string -> cell -> result (option bool)) : Prop :=
  forall pat, plain_pattern pat = true -> contains pat None = Ok (Some false).

(** [dec] is [y] rounded down to the nearest 10, as the specification
    words the decade: the multiple of ten that is at most [y] and less
    than ten below it. *)
Definition rounded_down_to_ten (y dec : Z) : Prop :=
  dec mod 10 = 0 /\ dec <= y < dec + 10.

(** The [Decade] entry [c] of a row whose year is [y]: the year rounded
    down, and missing when the year is. *)
Definition decade_entry (y c : option Z) : Prop :=
  match y with
  | Some y => exists dec, c = Some dec /\ rounded_down_to_ten y dec
  | None => c = None
  end.

(** The frame [create_visualizations] leaves behind. *)
Definition with_decade (d : DataFrame) : DataFrame :=
  setitem "Decade" (map decade_of (column Year d)) d.

(** The rows of the input behind the rows of the output, in the order of
    the output: the surviving rows reordered as [sort_values] reorders
    the working table, cut at 100. *)
Definition chosen (argsort : list Z -> list nat)
           (basics : list Basics.row) (ratings : list Ratings.row)
  : result (list Merged.row) :=
  let movies := surviving basics ratings in
  rbind (take (nargsort argsort (map Merged.numVotes movies) false) movies)
        (fun sorted => Ok (head 100 sorted)).

(** An output row carries the cleaned fields of an input row. *)
Definition row_of (to_numeric_text : string -> option Q)
           (m : Merged.row) (o : Movie) : Prop :=
  Title o = replace_marker (Merged.primaryTitle m) /\
  as_Int64 (to_numeric to_numeric_text (replace_marker (Merged.startYear m)))
  = Ok (Year o) /\
  Rating o = Some (Merged.averageRating m) /\
  Votes o = Some (Merged.numVotes m) /\
  Runtime o
  = to_numeric to_numeric_text (replace_marker (Merged.runtimeMinutes m)) /\
  Genres o = replace_marker (Merged.genres m).

(** ** Example tables *)

(** The decimal numeral of a number. *)
Definition numeral (k : nat) : string :=
  NilEmpty.string_of_uint (Nat.to_uint k).

(** Tables of [n] titles. Title [k] is a movie named [m<k>]; its year is
    the missing-value marker when [k] is a multiple of 7; its genres go
    round four lists. *)
Definition example_genres (k : nat) : string :=
  match (k mod 4)%nat with
  | 1%nat => "Comedy,Musical,Romance"
  | 3%nat => "Action"
  | _ => "Drama,Music"
  end.

Definition example_basics (n : nat) : list Basics.row :=
  map (fun k =>
         {| Basics.tconst := "tt" ++ numeral k;
            Basics.titleType := Some "movie"%string;
            Basics.primaryTitle := Some ("m" ++ numeral k)%string;
            Basics.startYear :=
              Some (if (k mod 7 =? 0)%nat then missing_marker
                    else numeral (1950 + k mod 60));
            Basics.runtimeMinutes := Some (numeral (90 + k mod 45));
            Basics.genres := Some (example_genres k) |})
      (seq 0 n).

Definition example_ratings (votes : nat -> Z) (n : nat) : list Ratings.row :=
  map (fun k =>
         {| Ratings.tconst := "tt" ++ numeral k;
            Ratings.averageRating := Z.of_nat (60 + k mod 35) # 10;
            Ratings.numVotes := votes k |})
      (seq 0 n).

(** Votes that differ from title to title, and votes that are all equal. *)
Definition spread_votes (k : nat) : Z := Z.of_nat (1000 + (k * 37) mod 101).

Definition tied_votes (k : nat) : Z := 1000.

(** The world the script starts in. *)
Definition empty_world : World := {| heap := []; stdout := []; files := [] |}.

(** The table has a row of this title. *)
Definition has_title (t : string) (table : list Movie) : bool :=
  existsb (fun o => na_eqb String.eqb (Title o) (Some t)) table.

(** The label is one of the labels obtained by splitting the row's
    [Genres] field. *)
Definition has_label (g : string) (r : FrameRow) : bool :=
  existsb (String.eqb g) (dropna (split_genres (Genres (movie r)))).

(** The table [get_top_100_movies] returns for 100 example titles. *)
Definition example_table : list Movie :=
  Eval vm_compute in
    match get_top_100_movies stable_argsort decimal_text
            (example_basics 100) (example_ratings spread_votes 100) with
    | Ok table => table
    | Raise _ => []
    end.

(** Three rows of a working table, two of them with equal votes. *)
Definition three_movies : list Movies.row :=
  map (fun tv =>
         {| Movies.primaryTitle := Some (fst tv);
            Movies.startYear := None;
            Movies.runtimeMinutes := None;
            Movies.genres := Some "Drama"%string;
            Movies.averageRating := 8 # 1;
            Movies.numVotes := snd tv |})
      [("a", 5); ("b", 7); ("c", 5)]%string.

(** A row of a frame that has these genres and nothing else. *)
Definition row_with_genres (g : string) : FrameRow :=
  {| movie := {| Rank := 1; Title := None; Year := None; Rating := None;
                 Votes := None; Runtime := None; Genres := Some g |};
     extras := [] |}.

(** What a computation prints is added at the end of the output. *)
Definition appends {A} (c : M A) : Prop :=
  forall w, exists out, stdout (snd (c w)) = stdout w ++ out.

(** ** Notions used to state the further properties *)

(** A row that has this year and nothing else. *)
Definition dated_row (y : option Z) : Movie :=
  {| Rank := 1; Title := None; Year := y; Rating := None; Votes := None;
     Runtime := None; Genres := None |}.

(** The row of the table returned when no row survives. *)
Definition missing_row (k : Z) : Movie :=
  {| Rank := k; Title := None; Year := None; Rating := None;
     Votes := None; Runtime := None; Genres := None |}.

(** Some row has a year. *)
Definition has_a_year (d : DataFrame) : bool :=
  existsb (fun r => match Year (movie r) with
                    | Some _ => true
                    | None => false
                    end) (rows d).

(** [decade_counts] of line 104:
    [df['Decade'].value_counts().sort_index()]. *)
Definition decade_counts (argsort : list Z -> list nat)
           (decades : list (option Z)) : result (list (Z * nat)) :=
  rbind (value_counts argsort Z.eqb (dropna decades)) (sort_index argsort).

(** The year lies in the ten years that start at [decade]. *)
Definition in_decade (decade y : Z) : bool :=
  (decade <=? y) && (y <? decade + 10).

(** The [Genres] text of the row contains the label. *)
Definition text_contains (g : string) (r : FrameRow) : bool :=
  match Genres (movie r) with
  | Some s => str_contains g s
  | None => false
  end.

(** The figure written for a frame [d] that now has its [Decade]
    column. *)
Definition figure_of (d : DataFrame) (panel_a : list _)
           (bars : list (Z * nat)) (violins : list (string * option Q))
  : figure :=
  {| scatter := panel_a;
     decade_bars := bars;
     genre_violins := violins;
     runtime_hist := column Runtime d;
     runtime_mean := mean (column Runtime d) |}.

(** [open(name).read()] on the files written so far. *)
Definition lookup_file (name : string)
           (fs : list (string * file_content)) : option file_content :=
  option_map snd (find (fun f => String.eqb name (fst f)) fs).

(** A computation leaves a file as it is, whether it returns or
    raises. *)
Definition keeps_file {A} (name : string) (c : M A) : Prop :=
  forall w, lookup_file name (files (snd (c w))) = lookup_file name (files w).

(** [r1] may stand before [r2] in a leaderboard: its key is not
    smaller, a missing key last. *)
Definition key_desc {A} (key : Movie -> option A) (leb : A -> A -> bool)
           (r1 r2 : FrameRow) : bool :=
  na_last (fun a b => leb b a) (key (movie r1)) (key (movie r2)).

(** [board] holds the three best rows of [pool], best first (all of
    them when there are fewer). *)
Definition leaderboard_of {A} (key : Movie -> option A)
           (leb : A -> A -> bool) (board pool : list FrameRow) : Prop :=
  exists rest,
    Permutation (board ++ rest) pool /\
    length board = Nat.min 3 (length pool) /\
    StronglySorted (fun a b => key_desc key leb a b = true) board /\
    Forall (fun r => Forall (fun b => key_desc key leb b r = true) board)
           rest.

(** The two tables printed for a label. *)
Definition leaderboards (d : DataFrame) (g : string) : list printed :=
  [TopByRating g
     (print_top Rating g
        (groupby_head 10
           (stable_sort (genre_then_desc Rating Qle_bool)
                        (rows (explode d)))));
   TopByVotes g
     (print_top Votes g
        (groupby_head 10
           (stable_sort (genre_then_desc Votes Z.leb)
                        (rows (explode d)))))].

(** A world that holds one dataframe object. *)
Definition world_of (d : DataFrame) : World :=
  {| heap := [d]; stdout := []; files := [] |}.

(** A frame of two rows, the second without genres. *)
Definition frame_with_gap : DataFrame :=
  {| extra_columns := [];
     rows := [row_with_genres "Drama,Music";
              {| movie := missing_row 2; extras := [] |}] |}.

(** A row that has these genres and this rating. *)
Definition rated_row (g : string) (x : Q) : FrameRow :=
  {| movie := {| Rank := 1; Title := None; Year := None; Rating := Some x;
                 Votes := None; Runtime := None; Genres := Some g |};
     extras := [] |}.

(** A frame of two rows; the label [Music] is on the first only. *)
Definition two_musicals : DataFrame :=
  {| extra_columns := [];
     rows := [rated_row "Drama,Music" (8 # 1); rated_row "Musical" (7 # 1)] |}.

(** * Properties *)

(** ** Facts about [mapM] and [take] *)

Lemma mapM_ok_map {A B} (f : A -> result B) (g : A -> B) (l : list A) :
  (forall x, In x l -> f x = Ok (g x)) -> mapM f l = Ok (map g l).
Proof.
  induction l as [|x xs IH]; intros H; simpl.
  - reflexivity.
  - rewrite (H x (or_introl eq_refl)). simpl.
    rewrite IH by (intros y Hy; apply H; now right). reflexivity.
Qed.

Lemma mapM_Forall2 {A B} (f : A -> result B) (l : list A) (r : list B) :
  mapM f l = Ok r -> Forall2 (fun x y => f x = Ok y) l r.
Proof.
  revert r. induction l as [|x xs IH]; intros r H; simpl in H.
  - injection H as <-. constructor.
  - destruct (f x) as [y|e] eqn:Hx; simpl in H; [|discriminate].
    destruct (mapM f xs) as [ys|e] eqn:Hxs; simpl in H; [|discriminate].
    injection H as <-. constructor; auto.
Qed.

Lemma mapM_length {A B} (f : A -> result B) (l : list A) (r : list B) :
  mapM f l = Ok r -> length r = length l.
Proof.
  intros H. apply mapM_Forall2 in H.
  symmetry. eapply Forall2_length; eauto.
Qed.

Lemma take_total {A} (d : A) (indexer : list nat) (l : list A) :
  Forall (fun i => (i < length l)%nat) indexer ->
  take indexer l = Ok (map (fun i => nth i l d) indexer).
Proof.
  intros H. unfold take. apply mapM_ok_map.
  intros i Hi. rewrite Forall_forall in H. specialize (H i Hi).
  destruct (nth_error l i) as [x|] eqn:E.
  - now rewrite (nth_error_nth _ _ d E).
  - apply nth_error_None in E. lia.
Qed.

Lemma take_In {A} (indexer : list nat) (l r : list A) :
  take indexer l = Ok r -> forall x, In x r -> In x l.
Proof.
  intros H. apply mapM_Forall2 in H.
  induction H as [|i y idx ys Hi _ IH]; intros x Hx; [contradiction|].
  destruct Hx as [<-|Hx]; [|now apply IH].
  destruct (nth_error l i) as [z|] eqn:E; [|discriminate].
  injection Hi as <-. eapply nth_error_In; eauto.
Qed.

Lemma map_nth_seq {A} (d : A) (l : list A) :
  map (fun i => nth i l d) (seq 0 (length l)) = l.
Proof.
  induction l as [|x xs IH]; simpl; [reflexivity|].
  f_equal. rewrite <- seq_shift, map_map. exact IH.
Qed.

Lemma take_permutation {A} (indexer : list nat) (l : list A) :
  Permutation indexer (seq 0 (length l)) ->
  exists r, take indexer l = Ok r /\ Permutation r l.
Proof.
  intros HP. destruct l as [|d l'].
  - simpl in HP. apply Permutation_sym, Permutation_nil in HP. subst.
    exists []. split; [reflexivity|constructor].
  - set (l := d :: l') in *.
    exists (map (fun i => nth i l d) indexer). split.
    + apply take_total. rewrite Forall_forall. intros i Hi.
      apply (Permutation_in _ HP), in_seq in Hi. lia.
    + eapply Permutation_trans; [apply Permutation_map; exact HP|].
      rewrite map_nth_seq. reflexivity.
Qed.

(** ** The contract of [np.argsort] *)

Lemma Sorted_snoc {A} (R : A -> A -> Prop) (l : list A) (x : A) :
  Sorted R l -> (forall y, last l x = y -> l <> [] -> R y x) ->
  Sorted R (l ++ [x]).
Proof.
  induction 1 as [|a l Hs IH Hd]; intros Hl; simpl.
  - repeat constructor.
  - constructor.
    + apply IH. intros y Hy Hne. apply Hl; [|discriminate].
      simpl. destruct l; [contradiction|exact Hy].
    + destruct l as [|b l]; simpl.
      * constructor. apply Hl; [reflexivity|discriminate].
      * inversion Hd; subst. now constructor.
Qed.

Lemma Sorted_rev {A} (R : A -> A -> Prop) (l : list A) :
  Sorted R l -> Sorted (fun a b => R b a) (rev l).
Proof.
  induction 1 as [|a l Hs IH Hd]; simpl; [constructor|].
  apply Sorted_snoc; [exact IH|].
  intros y Hy Hne. destruct l as [|b l]; [now elim Hne|].
  inversion Hd as [|? ? Hab]. simpl in Hy.
  rewrite last_last in Hy. now rewrite <- Hy.
Qed.

Lemma Sorted_firstn {A} (R : A -> A -> Prop) (n : nat) (l : list A) :
  Sorted R l -> Sorted R (firstn n l).
Proof.
  intros H. revert n. induction H as [|a l Hs IH Hd]; intros [|n]; simpl;
    try constructor.
  - apply IH.
  - destruct Hd; destruct n; simpl; now constructor.
Qed.

Lemma length_range (a b : Z) : length (range a b) = Z.to_nat (b - a).
Proof. unfold range. now rewrite length_map, length_seq. Qed.

Lemma rev_seq_nth (n i : nat) :
  (i < n)%nat -> nth i (rev (seq 0 n)) O = (n - S i)%nat.
Proof.
  intros H. rewrite rev_nth by (rewrite length_seq; exact H).
  rewrite length_seq, seq_nth by lia. reflexivity.
Qed.

Section SortContract.

Variable argsort : list Z -> list nat.
Variable to_numeric_text : string -> option Q.
Hypothesis argsort_ok : argsort_spec argsort.

Lemma argsort_bound (v : list Z) :
  Forall (fun i => (i < length v)%nat) (argsort v).
Proof.
  rewrite Forall_forall. intros i Hi.
  apply (Permutation_in _ (proj1 (argsort_ok v))), in_seq in Hi. lia.
Qed.

Lemma nargsort_desc_permutation (items : list Z) :
  Permutation (nargsort argsort items false) (seq 0 (length items)).
Proof.
  unfold nargsort.
  eapply Permutation_trans; [apply Permutation_sym, Permutation_rev|].
  eapply Permutation_trans.
  - apply Permutation_map. apply (proj1 (argsort_ok (rev items))).
  - rewrite length_rev.
    replace (length items) with (length (rev (seq 0 (length items)))) at 1
      by now rewrite length_rev, length_seq.
    rewrite map_nth_seq. apply Permutation_sym, Permutation_rev.
Qed.

Lemma nargsort_desc_keys (items : list Z) :
  map (fun i => nth i items 0) (nargsort argsort items false)
  = rev (map (fun i => nth i (rev items) 0) (argsort (rev items))).
Proof.
  unfold nargsort. rewrite map_rev, map_map. f_equal.
  apply map_ext_in. intros i Hi.
  pose proof (argsort_bound (rev items)) as Hb.
  rewrite Forall_forall in Hb. specialize (Hb i Hi).
  rewrite length_rev in Hb.
  rewrite rev_seq_nth by exact Hb.
  rewrite (rev_nth items) by exact Hb. reflexivity.
Qed.

Lemma nargsort_desc_sorted (items : list Z) :
  non_increasing (map (fun i => nth i items 0) (nargsort argsort items false)).
Proof.
  rewrite nargsort_desc_keys. apply Sorted_rev.
  apply (proj2 (argsort_ok (rev items))).
Qed.

(** [sort_values] returns, and what it returns is the table reordered with
    the votes in non-increasing order. *)
Lemma sort_values_numVotes_spec (movies : list Movies.row) :
  exists sorted,
    sort_values_numVotes argsort movies = Ok sorted /\
    Permutation sorted movies /\
    non_increasing (map Movies.numVotes sorted).
Proof.
  unfold sort_values_numVotes.
  pose proof (nargsort_desc_permutation (map Movies.numVotes movies)) as HP.
  rewrite length_map in HP.
  destruct (take_permutation _ _ HP) as (sorted & Ht & Hp).
  exists sorted. repeat split; auto.
  destruct movies as [|d tl] eqn:E; [|rewrite <- E in *].
  - apply Permutation_sym, Permutation_nil in Hp. subst. constructor.
  - rewrite (take_total d) in Ht.
    + injection Ht as <-. rewrite map_map.
      pose proof (nargsort_desc_sorted (map Movies.numVotes movies)) as Hs.
      erewrite map_ext_in; [exact Hs|].
      intros i Hi. simpl.
      apply (Permutation_in _ HP), in_seq in Hi.
      rewrite (nth_indep _ 0 (Movies.numVotes d))
        by (rewrite length_map; lia).
      now rewrite map_nth.
    + rewrite Forall_forall. intros i Hi.
      apply (Permutation_in _ HP), in_seq in Hi. lia.
Qed.

Lemma clean_castable (l : list Merged.row) :
  years_castable to_numeric_text l = true ->
  exists cleaned, mapM (clean_row to_numeric_text) l = Ok cleaned.
Proof.
  induction l as [|m l IH]; simpl; intros H.
  - now exists [].
  - apply andb_prop in H as [Hm Hl]. destruct (IH Hl) as (cl & ->).
    unfold clean_row, castable in *.
    destruct (as_Int64 _) as [y|e]; [|discriminate]. simpl. eauto.
Qed.

Lemma as_Int64_raises (x : option Q) (e : exn) :
  as_Int64 x = Raise e -> e = TypeError.
Proof.
  destruct x as [q|]; unfold as_Int64; [|discriminate].
  destruct (Pos.eqb (Qden (Qred q)) 1 && in_int64 (Qnum (Qred q)));
    [discriminate|]. now intros [= <-].
Qed.

Lemma clean_not_castable (l : list Merged.row) :
  years_castable to_numeric_text l = false ->
  mapM (clean_row to_numeric_text) l = Raise TypeError.
Proof.
  induction l as [|m l IH]; simpl; intros H; [discriminate|].
  unfold clean_row, castable in *.
  destruct (as_Int64 _) as [y|e] eqn:E; simpl in *.
  - now rewrite (IH H).
  - now rewrite (as_Int64_raises _ _ E).
Qed.

End SortContract.

Lemma ranked_table (value : list Z) (ms : list Movies.row) :
  length value = length ms ->
  let table := map select_renamed (combine value (map Some ms)) in
  length table = length ms /\
  map Rank table = value /\
  map Votes table = map Some (map Movies.numVotes ms).
Proof.
  revert ms. induction value as [|k value IH]; intros [|m ms] H;
    simpl in *; try discriminate; auto.
  injection H as H. destruct (IH ms H) as (H1 & H2 & H3).
  repeat split; f_equal; auto.
Qed.

Section TopRows.

Variable argsort : list Z -> list nat.
Variable to_numeric_text : string -> option Q.
Hypothesis argsort_ok : argsort_spec argsort.

(** The run of [get_top_100_movies] once the year column has been
    converted: the sorted table exists and only the insertion of [Rank]
    is left to decide the outcome. *)
Lemma get_top_100_movies_sorted basics ratings cleaned :
  mapM (clean_row to_numeric_text) (surviving basics ratings) = Ok cleaned ->
  exists sorted,
    Permutation sorted cleaned /\
    non_increasing (map Movies.numVotes sorted) /\
    get_top_100_movies argsort to_numeric_text basics ratings
    = rbind (insert_Rank (range 1 101) (head 100 sorted))
            (fun movies => Ok (map select_renamed movies)).
Proof.
  intros Hc.
  destruct (sort_values_numVotes_spec argsort argsort_ok cleaned)
    as (sorted & Hs & Hp & Hd).
  exists sorted. repeat split; auto.
  unfold get_top_100_movies. rewrite Hc. simpl. rewrite Hs. reflexivity.
Qed.

Lemma get_top_100_movies_not_castable basics ratings :
  years_castable to_numeric_text (surviving basics ratings) = false ->
  get_top_100_movies argsort to_numeric_text basics ratings
  = Raise TypeError.
Proof.
  intros H. unfold get_top_100_movies.
  now rewrite (clean_not_castable _ _ H).
Qed.

Lemma get_top_100_movies_full basics ratings :
  (100 <= length (surviving basics ratings))%nat ->
  years_castable to_numeric_text (surviving basics ratings) = true ->
  exists table,
    get_top_100_movies argsort to_numeric_text basics ratings
  = Ok table /\
    length table = 100%nat /\
    map Rank table = map Z.of_nat (seq 1 100) /\
    votes_non_increasing table.
Proof.
  intros Hn Hy.
  destruct (clean_castable _ _ Hy) as (cleaned & Hc).
  destruct (get_top_100_movies_sorted _ _ _ Hc) as (sorted & Hp & Hd & ->).
  assert (Hlen : length (head 100 sorted) = 100%nat).
  { unfold head. apply firstn_length_le.
    rewrite (Permutation_length Hp), (mapM_length _ _ _ Hc). exact Hn. }
  destruct (head 100 sorted) as [|m ms] eqn:E; [discriminate|].
  unfold insert_Rank. rewrite length_range, Hlen. simpl Nat.eqb. cbv iota.
  rewrite <- E in *. simpl rbind.
  destruct (ranked_table (range 1 101) (head 100 sorted)) as (H1 & H2 & H3).
  { now rewrite length_range, Hlen. }
  eexists. split; [reflexivity|].
  split; [exact (eq_trans H1 Hlen)|]. split; [exact H2|].
  exists (map Movies.numVotes (head 100 sorted)). split; [exact H3|].
    unfold head. rewrite <- firstn_map. now apply Sorted_firstn.
Qed.

Lemma get_top_100_movies_short basics ratings :
  (0 < length (surviving basics ratings) < 100)%nat ->
  years_castable to_numeric_text (surviving basics ratings) = true ->
  get_top_100_movies argsort to_numeric_text basics ratings
  = Raise ValueError.
Proof.
  intros Hn Hy.
  destruct (clean_castable _ _ Hy) as (cleaned & Hc).
  destruct (get_top_100_movies_sorted _ _ _ Hc) as (sorted & Hp & Hd & ->).
  assert (Hlen : length (head 100 sorted)
                 = length (surviving basics ratings)).
  { unfold head. rewrite firstn_all2;
      rewrite (Permutation_length Hp), (mapM_length _ _ _ Hc); [easy|lia]. }
  destruct (head 100 sorted) as [|m ms] eqn:E; [simpl in Hlen; lia|].
  unfold insert_Rank. rewrite length_range, Hlen.
  destruct (Nat.eqb_spec (Z.to_nat (101 - 1))
                         (length (surviving basics ratings))) as [Hq|_].
  - change (Z.to_nat (101 - 1)) with 100%nat in Hq. lia.
  - reflexivity.
Qed.

End TopRows.

(** ** The stable sort *)

Section StableSort.

Context {A : Type} (leb : A -> A -> bool).

Lemma insert_sorted_permutation (x : A) (l : list A) :
  Permutation (insert_sorted leb x l) (x :: l).
Proof.
  induction l as [|y ys IH]; simpl; [reflexivity|].
  destruct (leb x y); [reflexivity|].
  rewrite IH. apply perm_swap.
Qed.

Lemma stable_sort_permutation (l : list A) :
  Permutation (stable_sort leb l) l.
Proof.
  induction l as [|x xs IH]; simpl; [reflexivity|].
  fold (stable_sort leb xs).
  rewrite insert_sorted_permutation. now constructor.
Qed.

Hypothesis leb_total : forall a b, leb a b = true \/ leb b a = true.

Lemma insert_sorted_Sorted (x : A) (l : list A) :
  Sorted (fun a b => leb a b = true) l ->
  Sorted (fun a b => leb a b = true) (insert_sorted leb x l).
Proof.
  induction 1 as [|y ys Hs IH Hd]; simpl.
  - repeat constructor.
  - destruct (leb x y) eqn:E.
    + repeat constructor; auto.
    + constructor; [exact IH|].
      destruct ys as [|z zs]; simpl.
      * constructor. destruct (leb_total x y); congruence.
      * inversion Hd; subst. destruct (leb x z); constructor; auto.
        destruct (leb_total x y); congruence.
Qed.

Lemma stable_sort_Sorted (l : list A) :
  Sorted (fun a b => leb a b = true) (stable_sort leb l).
Proof.
  induction l as [|x xs IH]; simpl; [constructor|].
  now apply insert_sorted_Sorted.
Qed.

End StableSort.

(** A class of rows that the order cannot tell apart keeps its order. *)
Lemma insert_sorted_filter {A} (leb : A -> A -> bool) (P : A -> bool)
      (x : A) (l : list A) :
  (forall a b, P a = true -> P b = true -> leb a b = true) ->
  filter P (insert_sorted leb x l)
  = if P x then x :: filter P l else filter P l.
Proof.
  intros HP. induction l as [|y ys IH]; simpl; [reflexivity|].
  destruct (leb x y) eqn:E; simpl; [reflexivity|].
  rewrite IH. destruct (P x) eqn:Px, (P y) eqn:Py; try reflexivity.
  rewrite (HP x y Px Py) in E. discriminate.
Qed.

Lemma stable_sort_filter {A} (leb : A -> A -> bool) (P : A -> bool)
      (l : list A) :
  (forall a b, P a = true -> P b = true -> leb a b = true) ->
  filter P (stable_sort leb l) = filter P l.
Proof.
  intros HP. induction l as [|x xs IH]; simpl; [reflexivity|].
  fold (stable_sort leb xs). rewrite insert_sorted_filter by exact HP.
  now rewrite IH.
Qed.

(** Two orderings of a table that are both non-increasing in the key and
    both keep every class of equal keys in the same order are equal. *)
Lemma stable_order_unique {A} (key : A -> Z) (l1 l2 : list A) :
  non_increasing (map key l1) ->
  non_increasing (map key l2) ->
  (forall k, filter (fun a => key a =? k) l1
             = filter (fun a => key a =? k) l2) ->
  l1 = l2.
Proof.
  revert l2. induction l1 as [|x t1 IH]; intros l2 H1 H2 HF.
  - destruct l2 as [|y t2]; [reflexivity|].
    specialize (HF (key y)). simpl in HF. rewrite Z.eqb_refl in HF.
    discriminate.
  - destruct l2 as [|y t2].
    { specialize (HF (key x)). simpl in HF. rewrite Z.eqb_refl in HF.
      discriminate. }
    assert (Hle : forall (l : list A) (a b : A),
               non_increasing (map key (a :: l)) -> In b (a :: l) ->
               key b <= key a).
    { intros l a b Hs [->|Hb]; [lia|].
      apply Sorted_StronglySorted in Hs; [|intros u v w; lia].
      inversion Hs as [|? ? _ Hall]; subst.
      rewrite Forall_forall in Hall. apply Hall. now apply in_map. }
    assert (Hxy : key x = key y).
    { apply Z.le_antisymm.
      - apply (Hle t2 y x H2).
        assert (Hin : In x (filter (fun a => key a =? key x) (y :: t2))).
        { rewrite <- HF. simpl. rewrite Z.eqb_refl. now left. }
        now apply filter_In in Hin.
      - apply (Hle t1 x y H1).
        assert (Hin : In y (filter (fun a => key a =? key y) (x :: t1))).
        { rewrite HF. simpl. rewrite Z.eqb_refl. now left. }
        now apply filter_In in Hin. }
    pose proof (HF (key x)) as Hx. simpl in Hx.
    rewrite Z.eqb_refl, <- Hxy, Z.eqb_refl in Hx.
    injection Hx as -> Hx. f_equal.
    apply IH.
    + simpl in H1. now inversion H1.
    + simpl in H2. now inversion H2.
    + intros k. specialize (HF k). simpl in HF.
      destruct (key y =? k); [now injection HF|exact HF].
Qed.

(** ** The stable argsort meets the contract *)

Lemma by_value_total (p q : nat * Z) :
  Z.leb (snd p) (snd q) = true \/ Z.leb (snd q) (snd p) = true.
Proof.
  destruct (Z.leb_spec (snd p) (snd q)); [now left|right].
  apply Z.leb_le. lia.
Qed.

Lemma combine_seq_nth (v : list Z) (s : nat) (p : nat * Z) :
  In p (combine (seq s (length v)) v) ->
  (s <= fst p < s + length v)%nat /\ nth (fst p - s) v 0 = snd p.
Proof.
  revert s. induction v as [|x v IH]; intros s H; simpl in H; [contradiction|].
  destruct H as [<-|H]; simpl.
  - split; [lia|]. now rewrite Nat.sub_diag.
  - destruct (IH _ H) as [Hb Hn]. split; [lia|].
    replace (fst p - s)%nat with (S (fst p - S s)) by lia. exact Hn.
Qed.

Lemma map_fst_combine_seq (v : list Z) :
  map fst (combine (seq 0 (length v)) v) = seq 0 (length v).
Proof.
  generalize 0%nat. induction v as [|x v IH]; intros s; simpl;
    [reflexivity|]. now rewrite IH.
Qed.

Lemma stable_argsort_keys (v : list Z) (l : list (nat * Z)) :
  (forall p, In p l -> In p (combine (seq 0 (length v)) v)) ->
  map (fun i => nth i v 0) (map fst l) = map snd l.
Proof.
  intros H. rewrite map_map. apply map_ext_in. intros p Hp.
  destruct (combine_seq_nth v 0 p (H p Hp)) as [_ Hn].
  now rewrite Nat.sub_0_r in Hn.
Qed.

Lemma stable_argsort_spec : argsort_spec stable_argsort.
Proof.
  intros v. unfold stable_argsort. split.
  - rewrite <- (map_fst_combine_seq v) at 2.
    apply Permutation_map, stable_sort_permutation.
  - rewrite stable_argsort_keys.
    + pose proof (stable_sort_Sorted
                    (fun p q : nat * Z => Z.leb (snd p) (snd q))
                    by_value_total (combine (seq 0 (length v)) v)) as Hs.
      induction Hs as [|p l Hl IH Hd]; simpl; constructor; auto.
      destruct Hd; simpl; constructor. now apply Z.leb_le.
    + intros p Hp.
      eapply Permutation_in; [apply stable_sort_permutation|exact Hp].
Qed.

Lemma filter_map_comm {A B} (f : A -> B) (P : B -> bool) (l : list A) :
  filter P (map f l) = map f (filter (fun x => P (f x)) l).
Proof.
  induction l as [|x xs IH]; simpl; [reflexivity|].
  destruct (P (f x)); simpl; now rewrite IH.
Qed.

Lemma stable_argsort_stable : argsort_stable stable_argsort.
Proof.
  intros v k. unfold stable_argsort.
  rewrite filter_map_comm.
  rewrite (filter_ext_in _ (fun p : nat * Z => snd p =? k)).
  - rewrite stable_sort_filter.
    + rewrite <- (map_fst_combine_seq v) at 2.
      rewrite filter_map_comm. f_equal.
      apply filter_ext_in. intros p Hp.
      destruct (combine_seq_nth v 0 p Hp) as [_ Hn].
      rewrite Nat.sub_0_r in Hn. now rewrite Hn.
    + intros a b Ha Hb. apply Z.eqb_eq in Ha, Hb. apply Z.leb_le. lia.
  - intros p Hp.
    apply (Permutation_in _ (stable_sort_permutation _ _)) in Hp.
    destruct (combine_seq_nth v 0 p Hp) as [_ Hn].
    rewrite Nat.sub_0_r in Hn. now rewrite Hn.
Qed.

Lemma map_rev_seq_nth (n : nat) :
  map (fun i => nth i (rev (seq 0 n)) O) (seq 0 n) = rev (seq 0 n).
Proof.
  pose proof (map_nth_seq O (rev (seq 0 n))) as H.
  now rewrite length_rev, length_seq in H.
Qed.

Section StableContract.

Variable argsort : list Z -> list nat.
Hypothesis argsort_ok : argsort_spec argsort.
Hypothesis argsort_keeps_ties : argsort_stable argsort.

(** With a stable argsort the double reversal of [nargsort] leaves the
    positions of equal values in ascending order. *)
Lemma nargsort_desc_stable (items : list Z) (k : Z) :
  filter (fun i => nth i items 0 =? k) (nargsort argsort items false)
  = filter (fun i => nth i items 0 =? k) (seq 0 (length items)).
Proof.
  unfold nargsort. set (n := length items).
  set (c := fun i => nth i (rev (seq 0 n)) O).
  rewrite filter_rev, filter_map_comm.
  rewrite (filter_ext_in _ (fun i => nth i (rev items) 0 =? k)).
  - rewrite argsort_keeps_ties, length_rev. fold n.
    rewrite (filter_ext_in (fun i => nth i (rev items) 0 =? k)
                           (fun i => nth (c i) items 0 =? k)).
    + rewrite <- (filter_map_comm c (fun j => nth j items 0 =? k)).
      unfold c.
      rewrite map_rev_seq_nth, <- filter_rev. now rewrite rev_involutive.
    + intros i Hi. apply in_seq in Hi. unfold c.
      rewrite rev_seq_nth by lia. rewrite rev_nth by (fold n; lia).
      reflexivity.
  - intros i Hi.
    pose proof (argsort_bound argsort argsort_ok (rev items)) as Hb.
    rewrite Forall_forall in Hb. specialize (Hb i Hi).
    rewrite length_rev in Hb. fold n in Hb. unfold c.
    rewrite rev_seq_nth by lia. rewrite rev_nth by (fold n; lia).
    reflexivity.
Qed.

Lemma sort_values_numVotes_stable (movies : list Movies.row) :
  sort_values_numVotes argsort movies = Ok (sort_values_stable movies).
Proof.
  destruct (sort_values_numVotes_spec argsort argsort_ok movies)
    as (sorted & Hs & Hp & Hd).
  rewrite Hs. f_equal.
  apply (stable_order_unique Movies.numVotes); [exact Hd| |].
  - unfold sort_values_stable.
    pose proof (stable_sort_Sorted more_votes) as H.
    assert (Ht : forall a b, more_votes a b = true \/ more_votes b a = true).
    { intros a b. unfold more_votes.
      destruct (Z.leb_spec (Movies.numVotes b) (Movies.numVotes a));
        [now left|right]. apply Z.leb_le. lia. }
    specialize (H Ht movies).
    induction H as [|p l Hl IH Hh]; simpl; constructor; auto.
    destruct Hh; simpl; constructor. now apply Z.leb_le.
  - intros k. unfold sort_values_stable.
    rewrite stable_sort_filter.
    2:{ intros a b Ha Hb. apply Z.eqb_eq in Ha, Hb. unfold more_votes.
        apply Z.leb_le. lia. }
    destruct movies as [|d tl] eqn:E.
    { apply Permutation_sym, Permutation_nil in Hp. now subst. }
    rewrite <- E in *.
    unfold sort_values_numVotes in Hs.
    pose proof (nargsort_desc_permutation argsort argsort_ok
                  (map Movies.numVotes movies)) as HP.
    rewrite length_map in HP.
    rewrite (take_total d) in Hs.
    2:{ rewrite Forall_forall. intros i Hi.
        apply (Permutation_in _ HP), in_seq in Hi. lia. }
    injection Hs as <-.
    rewrite filter_map_comm.
    rewrite (filter_ext_in _
               (fun i => nth i (map Movies.numVotes movies) 0 =? k)).
    2:{ intros i Hi. apply (Permutation_in _ HP), in_seq in Hi.
        rewrite (nth_indep _ 0 (Movies.numVotes d))
          by (rewrite length_map; lia).
        now rewrite map_nth. }
    rewrite nargsort_desc_stable, length_map.
    rewrite (filter_ext_in _
               (fun i => Movies.numVotes (nth i movies d) =? k)).
    2:{ intros i Hi. apply in_seq in Hi.
        rewrite (nth_indep _ 0 (Movies.numVotes d))
          by (rewrite length_map; lia).
        now rewrite map_nth. }
    rewrite <- filter_map_comm with (f := fun i => nth i movies d)
                                    (P := fun a => Movies.numVotes a =? k).
    now rewrite map_nth_seq.
Qed.

End StableContract.

(** ** Groups and their first rows *)

Lemma genre_is_label (g : string) (r : FrameRow) (g' : string) :
  Genres (movie r) = Some g' -> genre_is g r = String.eqb g g'.
Proof.
  intros H. unfold genre_is. rewrite H. simpl. apply String.eqb_sym.
Qed.

Lemma genre_is_missing (g : string) (r : FrameRow) :
  Genres (movie r) = None -> genre_is g r = false.
Proof. intros H. unfold genre_is. now rewrite H. Qed.

(** The rows of one label that [groupby('Genres').head(n)] keeps are the
    first rows of that label, as many as the group may still take. *)
Lemma groupby_head_from_label (g : string) (n : nat) (l : list FrameRow)
      (seen : list string) :
  filter (genre_is g) (groupby_head_from seen n l)
  = firstn (n - occurrences String.eqb g seen) (filter (genre_is g) l).
Proof.
  revert seen. induction l as [|r rs IH]; intros seen; simpl.
  - now rewrite firstn_nil.
  - destruct (Genres (movie r)) as [g'|] eqn:Hg.
    + rewrite (genre_is_label g r g' Hg).
      assert (Hocc : occurrences String.eqb g (g' :: seen)
                     = ((if String.eqb g g' then 1 else 0)
                        + occurrences String.eqb g seen)%nat).
      { unfold occurrences. simpl. now destruct (String.eqb g g'). }
      destruct (String.eqb g g') eqn:E.
      * apply String.eqb_eq in E. subst g'.
        destruct (Nat.ltb_spec (occurrences String.eqb g seen) n) as [Hlt|Hge].
        -- simpl. rewrite (genre_is_label g r g Hg), String.eqb_refl.
           rewrite IH, Hocc.
           replace (n - occurrences String.eqb g seen)%nat
             with (S (n - (1 + occurrences String.eqb g seen))) by lia.
           reflexivity.
        -- rewrite IH, Hocc.
           replace (n - (1 + occurrences String.eqb g seen))%nat
             with O by lia.
           replace (n - occurrences String.eqb g seen)%nat with O by lia.
           reflexivity.
      * destruct (Nat.ltb (occurrences String.eqb g' seen) n); simpl;
          rewrite ?(genre_is_label g r g' Hg), ?E, IH, Hocc; reflexivity.
    + rewrite (genre_is_missing g r Hg). apply IH.
Qed.

Lemma groupby_head_label (g : string) (n : nat) (l : list FrameRow) :
  filter (genre_is g) (groupby_head n l) = firstn n (filter (genre_is g) l).
Proof.
  unfold groupby_head. rewrite groupby_head_from_label.
  unfold occurrences. simpl. now rewrite Nat.sub_0_r.
Qed.

Lemma print_top_of_10 {A} (key : Movie -> option A) (g : string)
      (l : list FrameRow) :
  print_top key g (groupby_head 10 l) = print_all key g (groupby_head 3 l).
Proof.
  unfold print_top, print_all, head.
  rewrite !groupby_head_label, firstn_firstn. reflexivity.
Qed.

Lemma bind_ext {A B} (c : M A) (k1 k2 : A -> M B) (w : World) :
  (forall a w', k1 a w' = k2 a w') -> bind c k1 w = bind c k2 w.
Proof.
  intros H. unfold bind. destruct (c w) as [[a|e] w']; auto.
Qed.

Lemma for_each_ext {A} (l : list A) (f g : A -> M unit) :
  (forall x w, f x w = g x w) -> forall w, for_each l f w = for_each l g w.
Proof.
  intros H. induction l as [|x xs IH]; intros w; simpl; [reflexivity|].
  unfold bind. rewrite H. destruct (g x w) as [[[]|e] w']; auto.
Qed.

(** ** Counting labels *)

Lemma in_nil_eq {A} (l : list A) : (forall x, ~ In x l) -> l = [].
Proof.
  destruct l as [|x xs]; [reflexivity|]. intros H. elim (H x). now left.
Qed.

Lemma dropna_app {A} (l1 l2 : list (option A)) :
  dropna (l1 ++ l2) = dropna l1 ++ dropna l2.
Proof.
  induction l1 as [|[x|] l1 IH]; simpl; congruence.
Qed.

Lemma dropna_map_Some {A} (l : list A) : dropna (map Some l) = l.
Proof. induction l; simpl; congruence. Qed.

Lemma occurrences_app {K} (eqb : K -> K -> bool) (x : K) (l1 l2 : list K) :
  occurrences eqb x (l1 ++ l2)
  = (occurrences eqb x l1 + occurrences eqb x l2)%nat.
Proof. unfold occurrences. now rewrite filter_app, length_app. Qed.


Lemma labels_rows (cols : list string) (pre post : list FrameRow)
      (r : FrameRow) :
  labels {| extra_columns := cols; rows := pre ++ r :: post |}
  = labels {| extra_columns := cols; rows := pre |}
    ++ dropna (split_genres (Genres (movie r)))
    ++ labels {| extra_columns := cols; rows := post |}.
Proof.
  unfold labels, all_genres, column. cbn [rows].
  rewrite map_app, flat_map_app. cbn [map flat_map].
  unfold cell. now rewrite !dropna_app.
Qed.

(** ** Computations that leave a part of the world alone *)

Lemma preserves_ret {X A} (part : World -> X) (a : A) :
  preserves part (ret a).
Proof. intros w. reflexivity. Qed.

Lemma preserves_lift {X A} (part : World -> X) (r : result A) :
  preserves part (lift r).
Proof. intros w. reflexivity. Qed.

Lemma preserves_deref {X} (part : World -> X) (l : loc) :
  preserves part (deref l).
Proof.
  intros w. unfold deref. now destruct (nth_error (heap w) l).
Qed.

Lemma print_heap (p : printed) : preserves heap (print p).
Proof. intros w. reflexivity. Qed.

Lemma print_files (p : printed) : preserves files (print p).
Proof. intros w. reflexivity. Qed.

Lemma write_file_heap (name : string) (c : file_content) :
  preserves heap (write_file name c).
Proof. intros w. reflexivity. Qed.

Lemma preserves_bind {X A B} (part : World -> X) (c : M A) (k : A -> M B) :
  preserves part c -> (forall a, preserves part (k a)) ->
  preserves part (bind c k).
Proof.
  intros Hc Hk w. unfold bind. specialize (Hc w).
  destruct (c w) as [[a|e] w']; simpl in Hc.
  - now rewrite Hk.
  - exact Hc.
Qed.

Lemma preserves_for_each {X A} (part : World -> X) (l : list A)
      (body : A -> M unit) :
  (forall x, preserves part (body x)) -> preserves part (for_each l body).
Proof.
  intros H. induction l as [|x xs IH]; simpl.
  - apply preserves_ret.
  - apply preserves_bind; auto.
Qed.

Create HintDb preserves.

#[local] Hint Resolve preserves_ret preserves_lift preserves_deref
  print_heap print_files write_file_heap : preserves.

Ltac preserves :=
  repeat first
    [ apply preserves_bind; [|intros ?]
    | apply preserves_for_each; intros ?
    | solve [auto with preserves] ].

Lemma analyze_data_heap argsort (df : loc) :
  preserves heap (analyze_data argsort df).
Proof. unfold analyze_data. preserves. Qed.

Lemma analyze_data_files argsort (df : loc) :
  preserves files (analyze_data argsort df).
Proof. unfold analyze_data. preserves. Qed.

Lemma bind_Ok {A B} (c : M A) (k : A -> M B) (w w' : World) (b : B) :
  bind c k w = (Ok b, w') ->
  exists a w1, c w = (Ok a, w1) /\ k a w1 = (Ok b, w').
Proof.
  unfold bind. destruct (c w) as [[a|e] w1]; [eauto|discriminate].
Qed.

(** ** Assigning a column *)

Lemma index_of_bound (name : string) (l : list string) (p : nat) :
  index_of name l = Some p -> (p < length l)%nat.
Proof.
  revert p. induction l as [|x xs IH]; intros p; simpl; [discriminate|].
  destruct (String.eqb name x); [intros [= <-]; lia|].
  destruct (index_of name xs) as [q|]; simpl; [|discriminate].
  intros [= <-]. specialize (IH q eq_refl). lia.
Qed.

Lemma index_of_In (name : string) (l : list string) (p : nat) :
  index_of name l = Some p -> In name l.
Proof.
  revert p. induction l as [|x xs IH]; intros p; simpl; [discriminate|].
  destruct (String.eqb_spec name x) as [->|_]; [now left|].
  destruct (index_of name xs) as [q|]; simpl; [|discriminate].
  intros _. right. now apply (IH q).
Qed.

Lemma index_of_not_In (name : string) (l : list string) :
  index_of name l = None -> ~ In name l.
Proof.
  induction l as [|x xs IH]; simpl; [tauto|].
  destruct (String.eqb_spec name x) as [->|Hne]; [discriminate|].
  destruct (index_of name xs) as [q|]; simpl; [discriminate|].
  intros _ [H|H]; [congruence|]. now apply IH.
Qed.

Lemma index_of_app_new (name : string) (l : list string) :
  index_of name l = None -> index_of name (l ++ [name]) = Some (length l).
Proof.
  induction l as [|x xs IH]; simpl.
  - now rewrite String.eqb_refl.
  - destruct (String.eqb name x); [discriminate|].
    destruct (index_of name xs); simpl; [discriminate|].
    intros _. now rewrite IH.
Qed.

Lemma nth_set_nth {A} (p : nat) (x d : A) (l : list A) :
  (p < length l)%nat -> nth p (set_nth p x l) d = x.
Proof.
  revert p. induction l as [|y ys IH]; intros [|p] H; simpl in *;
    try lia; auto. apply IH. lia.
Qed.

Lemma nth_error_set_nth {A} (p : nat) (x : A) (l : list A) :
  (p < length l)%nat -> nth_error (set_nth p x l) p = Some x.
Proof.
  revert p. induction l as [|y ys IH]; intros [|p] H; simpl in *;
    try lia; auto. apply IH. lia.
Qed.

Lemma map_fst_combine {A B} (l1 : list A) (l2 : list B) :
  length l2 = length l1 -> map fst (combine l1 l2) = l1.
Proof.
  revert l2. induction l1 as [|x xs IH]; intros [|y ys] H; simpl in *;
    try discriminate; auto. f_equal. apply IH. lia.
Qed.

Section SetItem.

Variables (name : string) (d : DataFrame) (values : list (option Z)).
Hypothesis same_length : length values = length (rows d).

Lemma setitem_movies :
  map movie (rows (setitem name values d)) = map movie (rows d).
Proof.
  unfold setitem.
  destruct (index_of name (extra_columns d)); cbn [rows]; rewrite map_map;
    cbn [movie];
    rewrite <- (map_map fst movie), map_fst_combine; auto.
Qed.

Lemma setitem_columns :
  In name (columns (setitem name values d)) /\
  (~ In name (extra_columns d) ->
   columns (setitem name values d) = columns d ++ [name]).
Proof.
  unfold setitem, columns.
  destruct (index_of name (extra_columns d)) as [p|] eqn:E; cbn [extra_columns].
  - split.
    + apply in_or_app. right. eapply index_of_In; eauto.
    + intros H. elim H. eapply index_of_In; eauto.
  - split.
    + apply in_or_app. right. apply in_or_app. right. now left.
    + intros _. now rewrite app_assoc.
Qed.

Lemma setitem_getitem :
  well_formed d -> getitem name (setitem name values d) = Some values.
Proof.
  intros Hwf. unfold getitem, setitem.
  destruct (index_of name (extra_columns d)) as [p|] eqn:E;
    cbn [extra_columns rows].
  - rewrite E. f_equal. rewrite map_map. cbn [extras].
    revert values same_length. unfold well_formed in Hwf.
    induction Hwf as [|r rs Hr _ IH]; intros [|v vs] Hl; simpl in *;
      try discriminate; auto.
    f_equal; [|apply IH; lia].
    apply nth_set_nth. rewrite Hr. eapply index_of_bound; eauto.
  - rewrite (index_of_app_new _ _ E). f_equal. rewrite map_map. cbn [extras].
    revert values same_length. unfold well_formed in Hwf.
    induction Hwf as [|r rs Hr _ IH]; intros [|v vs] Hl; simpl in *;
      try discriminate; auto.
    f_equal; [|apply IH; lia].
    rewrite <- Hr. rewrite app_nth2, Nat.sub_diag by lia. reflexivity.
Qed.

End SetItem.

Lemma create_visualizations_heap argsort contains (df : loc) (w : World)
      (d : DataFrame) :
  nth_error (heap w) df = Some d ->
  heap (snd (create_visualizations argsort contains df w))
  = set_nth df (with_decade d) (heap w).
Proof.
  intros H. unfold create_visualizations, bind at 1, deref at 1.
  rewrite H. cbv zeta. unfold bind at 1, store at 1. cbv beta iota.
  match goal with
  | |- heap (snd (?rest ?w1)) = _ =>
      assert (Hr : preserves heap rest) by preserves;
      rewrite (Hr w1)
  end.
  reflexivity.
Qed.

Lemma with_decade_frame_of (table : list Movie) :
  let d := with_decade (frame_of table) in
  columns d = public_columns ++ ["Decade"%string] /\
  getitem "Decade" d = Some (map decade_of (map Year table)) /\
  map movie (rows d) = table.
Proof.
  unfold with_decade, setitem, getitem, frame_of, columns, column.
  cbn [extra_columns rows index_of app String.eqb Ascii.eqb Bool.eqb].
  cbn [index_of]. rewrite !map_map. cbn [movie extras app nth].
  repeat split.
  - f_equal. induction table; simpl; congruence.
  - induction table; simpl; congruence.
Qed.

Lemma decade_of_year (y dec : Z) :
  (y / 10) * 10 = dec <-> dec mod 10 = 0 /\ dec <= y < dec + 10.
Proof.
  split.
  - intros <-. split; [apply Z.mod_mul; lia|].
    pose proof (Z.mod_pos_bound y 10 ltac:(lia)).
    pose proof (Z.div_mod y 10 ltac:(lia)). lia.
  - intros [Hm Hr]. apply Z.mod_divide in Hm; [|lia].
    destruct Hm as [k ->].
    replace (y / 10) with k; [reflexivity|].
    apply Z.div_unique with (r := y - k * 10); lia.
Qed.

Lemma frame_of_well_formed (table : list Movie) :
  well_formed (frame_of table).
Proof.
  unfold well_formed, frame_of. cbn [rows extra_columns].
  apply Forall_forall. intros r Hr.
  apply in_map_iff in Hr as (m & <- & _). reflexivity.
Qed.

Lemma decade_entries_unique (years col : list (option Z)) :
  Forall2 decade_entry years col -> col = map decade_of years.
Proof.
  induction 1 as [|y c ys cs Hyc _ IH]; simpl; [reflexivity|].
  f_equal; [|exact IH]. destruct y as [y|]; simpl in *; [|exact Hyc].
  destruct Hyc as (dec & -> & Hd). f_equal. symmetry.
  now apply decade_of_year.
Qed.

Lemma decade_entries (years : list (option Z)) :
  Forall2 decade_entry years (map decade_of years).
Proof.
  induction years as [|[y|] ys IH]; simpl; constructor; auto.
  - exists (y / 10 * 10). split; [reflexivity|].
    now apply decade_of_year.
  - reflexivity.
Qed.

Section Script.

Variable argsort : list Z -> list nat.
Variable to_numeric_text : string -> option Q.
Variable contains : string -> cell -> result (option bool).

Lemma main_through_visualize_Ok basics ratings (w w' : World) (movies : loc) :
  main_through_visualize argsort to_numeric_text contains basics ratings w
  = (Ok movies, w') ->
  exists table,
    get_top_100_movies argsort to_numeric_text basics ratings = Ok table /\
    nth_error (heap w') movies = Some (with_decade (frame_of table)).
Proof.
  unfold main_through_visualize. intros H.
  apply bind_Ok in H as ([] & w1 & H1 & H).
  apply bind_Ok in H as ([] & w2 & H2 & H).
  apply bind_Ok in H as ([] & w3 & H3 & H).
  apply bind_Ok in H as (table & w4 & H4 & H).
  apply bind_Ok in H as (l & w5 & H5 & H).
  apply bind_Ok in H as ([] & w6 & H6 & H).
  apply bind_Ok in H as ([] & w7 & H7 & H).
  apply bind_Ok in H as ([] & w8 & H8 & H).
  apply bind_Ok in H as ([] & w9 & H9 & H).
  apply bind_Ok in H as ([] & w10 & H10 & H).
  injection H as -> ->.
  unfold lift in H4. injection H4 as H4 <-.
  exists table. split; [exact H4|].
  unfold alloc in H5. injection H5 as <- <-.
  assert (E6 : heap w6 = heap w3 ++ [frame_of table]).
  { assert (Hp : preserves heap
                   (d <- deref (length (heap w3)) ;;
                    write_file "top_100_imdb_movies.csv" (Csv d)))
      by preserves.
    specialize (Hp {| heap := heap w3 ++ [frame_of table];
                      stdout := stdout w3; files := files w3 |}).
    now rewrite H6 in Hp. }
  assert (E7 : heap w7 = heap w6).
  { pose proof (print_heap (Text "Saved top 100 movies to 'top_100_imdb_movies.csv'") w6) as Hp.
    now rewrite H7 in Hp. }
  assert (E8 : heap w8 = heap w7).
  { pose proof (analyze_data_heap argsort (length (heap w3)) w7) as Hp.
    now rewrite H8 in Hp. }
  assert (E9 : heap w9 = heap w8).
  { pose proof (print_heap (Text "Creating visualizations...") w8) as Hp.
    now rewrite H9 in Hp. }
  assert (Hd : nth_error (heap w9) (length (heap w3))
               = Some (frame_of table)).
  { rewrite E9, E8, E7, E6. rewrite nth_error_app2 by lia.
    now rewrite Nat.sub_diag. }
  pose proof (create_visualizations_heap argsort contains _ _ _ Hd) as Hh.
  rewrite H10 in Hh. simpl in Hh. rewrite Hh.
  apply nth_error_set_nth. apply nth_error_Some. now rewrite Hd.
Qed.

Lemma main_after_visualize basics ratings (w w' : World) (movies : loc) :
  main_through_visualize argsort to_numeric_text contains basics ratings w
  = (Ok movies, w') ->
  main argsort to_numeric_text contains basics ratings w
  = (top_movies_by_genre argsort movies ;;;
     print (Text "Analysis complete! Check the generated files.")) w'.
Proof.
  intros H. unfold main. unfold bind at 1. now rewrite H.
Qed.

End Script.

(** ** Rows of the output and the rows they come from *)

Lemma Forall2_nth_error_r {A B} (R : A -> B -> Prop) (l1 : list A)
      (l2 : list B) (i : nat) (y : B) :
  Forall2 R l1 l2 -> nth_error l2 i = Some y ->
  exists x, nth_error l1 i = Some x /\ R x y.
Proof.
  intros H. revert i. induction H as [|a b l1 l2 Hab _ IH]; intros [|i] Hi;
    simpl in *; try discriminate.
  - injection Hi as <-. eauto.
  - now apply IH.
Qed.

Lemma take_Forall2 {A B} (R : A -> B -> Prop) (indexer : list nat)
      (l1 : list A) (l2 r2 : list B) :
  Forall2 R l1 l2 -> take indexer l2 = Ok r2 ->
  exists r1, take indexer l1 = Ok r1 /\ Forall2 R r1 r2.
Proof.
  intros HR. revert r2. unfold take.
  induction indexer as [|i idx IH]; intros r2 H; simpl in *.
  - injection H as <-. exists []. split; [reflexivity|constructor].
  - destruct (nth_error l2 i) as [y|] eqn:Ey; [|discriminate]. simpl in H.
    destruct (mapM _ idx) as [ys|e] eqn:Eys; [|discriminate]. simpl in H.
    injection H as <-.
    destruct (Forall2_nth_error_r R l1 l2 i y HR Ey) as (x & Ex & Hxy).
    destruct (IH ys eq_refl) as (xs & Exs & Hxs).
    rewrite Ex. simpl. rewrite Exs. simpl.
    exists (x :: xs). split; [reflexivity|now constructor].
Qed.

Lemma Forall2_firstn {A B} (R : A -> B -> Prop) (n : nat) (l1 : list A)
      (l2 : list B) :
  Forall2 R l1 l2 -> Forall2 R (firstn n l1) (firstn n l2).
Proof.
  intros H. revert n. induction H; intros [|n]; simpl; constructor; auto.
Qed.

Lemma Forall2_compose {A B C} (R : A -> B -> Prop) (S : B -> C -> Prop)
      (l1 : list A) (l2 : list B) (l3 : list C) :
  Forall2 R l1 l2 -> Forall2 S l2 l3 ->
  Forall2 (fun a c => exists b, R a b /\ S b c) l1 l3.
Proof.
  intros H. revert l3. induction H; intros l3 H3; inversion H3; subst;
    constructor; eauto.
Qed.

Lemma ranked_rows (value : list Z) (ms : list Movies.row) :
  length value = length ms ->
  Forall2 (fun m o => exists k, o = select_renamed (k, Some m)) ms
          (map select_renamed (combine value (map Some ms))).
Proof.
  revert ms. induction value as [|k value IH]; intros [|m ms] H;
    simpl in *; try discriminate; constructor; eauto.
Qed.

Section Years.

Variable argsort : list Z -> list nat.
Variable to_numeric_text : string -> option Q.
Hypothesis argsort_ok : argsort_spec argsort.

Lemma clean_row_marker (m : Merged.row) :
  Merged.startYear m = Some missing_marker ->
  exists c, clean_row to_numeric_text m = Ok c /\ Movies.startYear c = None.
Proof.
  intros H. unfold clean_row. rewrite H. simpl. eauto.
Qed.

Lemma clean_row_fields (m : Merged.row) (c : Movies.row) (k : Z) :
  clean_row to_numeric_text m = Ok c ->
  row_of to_numeric_text m (select_renamed (k, Some c)).
Proof.
  unfold clean_row, row_of.
  destruct (as_Int64 _) as [y|e]; simpl; [|discriminate].
  intros [= <-]. simpl. repeat split.
Qed.

Lemma row_of_marker (m : Merged.row) (o : Movie) :
  row_of to_numeric_text m o ->
  Merged.startYear m = Some missing_marker -> Year o = None.
Proof.
  intros (_ & Hy & _) H. rewrite H in Hy. simpl in Hy. congruence.
Qed.

Lemma clean_votes (l : list Merged.row) (cleaned : list Movies.row) :
  Forall2 (fun m c => clean_row to_numeric_text m = Ok c) l cleaned ->
  map Movies.numVotes cleaned = map Merged.numVotes l.
Proof.
  induction 1 as [|m c l cl Hmc _ IH]; simpl; [reflexivity|].
  f_equal; [|exact IH]. unfold clean_row in Hmc.
  destruct (as_Int64 _); simpl in Hmc; [|discriminate].
  now injection Hmc as <-.
Qed.

Lemma get_top_100_movies_sources basics ratings table :
  surviving basics ratings <> [] ->
  get_top_100_movies argsort to_numeric_text basics ratings = Ok table ->
  exists src,
    chosen argsort basics ratings = Ok src /\
    Forall2 (row_of to_numeric_text) src table.
Proof.
  intros Hne H. unfold get_top_100_movies in H.
  destruct (mapM _ (surviving basics ratings)) as [cleaned|e] eqn:Hc;
    [|discriminate]. cbn [rbind] in H.
  destruct (sort_values_numVotes_spec argsort argsort_ok cleaned)
    as (sorted & Hs & Hp & _).
  rewrite Hs in H. cbn [rbind] in H.
  pose proof (mapM_Forall2 _ _ _ Hc) as HF.
  unfold sort_values_numVotes in Hs. rewrite (clean_votes _ _ HF) in Hs.
  destruct (take_Forall2 _ _ _ _ _ HF Hs) as (src0 & Hsrc & HF0).
  exists (head 100 src0). split.
  { unfold chosen. now rewrite Hsrc. }
  assert (Hlen : length sorted = length (surviving basics ratings)).
  { rewrite (Permutation_length Hp). eapply mapM_length; eauto. }
  unfold head in *. unfold insert_Rank in H.
  destruct (firstn 100 sorted) as [|c cs] eqn:Eh.
  { destruct sorted; [|discriminate Eh].
    destruct (surviving basics ratings); [now elim Hne|discriminate]. }
  rewrite <- Eh in *. clear Eh c cs.
  destruct (Nat.eqb_spec (length (range 1 101)) (length (firstn 100 sorted)))
    as [Hl|Hl]; [|discriminate].
  cbn [rbind] in H. injection H as <-.
  pose proof (Forall2_firstn _ 100 _ _ HF0) as HF1.
  pose proof (ranked_rows _ _ Hl) as HF2.
  pose proof (Forall2_compose _ _ _ _ _ HF1 HF2) as HF3.
  eapply Forall2_impl; [|exact HF3].
  intros m o (c & Hmc & k & ->). now apply clean_row_fields.
Qed.

End Years.

Lemma Permutation_filter {A} (f : A -> bool) (l l' : list A) :
  Permutation l l' -> Permutation (filter f l) (filter f l').
Proof.
  induction 1 as [|x l l' _ IH|x y l|l l' l'' _ IH1 _ IH2]; simpl.
  - constructor.
  - destruct (f x); [now constructor|exact IH].
  - destruct (f x), (f y); try reflexivity. apply perm_swap.
  - now transitivity (filter f l').
Qed.

Lemma In_head {A} (n : nat) (l : list A) (x : A) :
  In x (head n l) -> In x l.
Proof.
  intros H. rewrite <- (firstn_skipn n l). apply in_or_app. now left.
Qed.



(** * Further properties *)

(** ** Further properties of [get_top_100_movies] *)

(** X1. The rows that reach the cleaning step are the pairs of a title
    and a rating with the same identifier, the title being of type
    [movie]: a title without rating, a rating without title and a title
    of another type (or without type) leave no row. *)
Theorem surviving_rows_are_rated_movies
        (basics : list Basics.row) (ratings : list Ratings.row)
        (m : Merged.row) :
  In m (surviving basics ratings) <->
  exists b r,
    In b basics /\ In r ratings /\
    Basics.tconst b = Ratings.tconst r /\
    Basics.titleType b = Some "movie"%string /\
    m = join_row b r.
Proof.
  unfold surviving, merge. rewrite filter_In, in_flat_map. split.
  - intros ((b & Hb & Hm) & Ht).
    apply in_map_iff in Hm as (r & <- & Hr).
    apply filter_In in Hr as (Hr & He). apply String.eqb_eq in He.
    exists b, r. repeat split; auto.
    unfold is_movie in Ht. simpl in Ht.
    destruct (Basics.titleType b) as [t|]; [|discriminate].
    apply String.eqb_eq in Ht. now subst.
  - intros (b & r & Hb & Hr & He & Ht & ->). split.
    + exists b. split; [exact Hb|]. apply in_map, filter_In. split; auto.
      now apply String.eqb_eq.
    + unfold is_movie. simpl. rewrite Ht. apply String.eqb_refl.
Qed.

(** X2. A surviving row whose year reads as a number that is not an
    integer makes [get_top_100_movies] raise [TypeError], however many
    rows there are and whatever the sort does. *)
Theorem non_integral_year_raises
        (argsort : list Z -> list nat) (to_numeric_text : string -> option Q)
        (basics : list Basics.row) (ratings : list Ratings.row)
        (m : Merged.row) (q : Q) :
  In m (surviving basics ratings) ->
  to_numeric to_numeric_text (replace_marker (Merged.startYear m)) = Some q ->
  Qden (Qred q) <> 1%positive ->
  get_top_100_movies argsort to_numeric_text basics ratings
  = Raise TypeError.
Proof.
  intros Hm Hq Hd. apply get_top_100_movies_not_castable.
  unfold years_castable.
  destruct (forallb _ _) eqn:E; [|reflexivity].
  rewrite forallb_forall in E. specialize (E m Hm).
  unfold castable, as_Int64 in E. rewrite Hq in E.
  destruct (Pos.eqb_spec (Qden (Qred q)) 1); [contradiction|discriminate].
Qed.

(** A descending sort of a table on an integer key: [take] of the
    positions [nargsort] gives returns the same rows with the keys
    non-increasing. *)
Lemma take_nargsort_desc {A} (argsort : list Z -> list nat)
      (key : A -> Z) (l : list A) :
  argsort_spec argsort ->
  exists sorted,
    take (nargsort argsort (map key l) false) l = Ok sorted /\
    Permutation sorted l /\
    non_increasing (map key sorted).
Proof.
  intros Hs.
  pose proof (nargsort_desc_permutation argsort Hs (map key l)) as HP.
  rewrite length_map in HP.
  destruct (take_permutation _ _ HP) as (sorted & Ht & Hp).
  exists sorted. repeat split; auto.
  destruct l as [|d tl] eqn:E; [|rewrite <- E in *].
  - apply Permutation_sym, Permutation_nil in Hp. subst. constructor.
  - rewrite (take_total d) in Ht.
    + injection Ht as <-. rewrite map_map.
      pose proof (nargsort_desc_sorted argsort Hs (map key l)) as Hd.
      erewrite map_ext_in; [exact Hd|].
      intros i Hi. simpl.
      apply (Permutation_in _ HP), in_seq in Hi.
      rewrite (nth_indep _ 0 (key d)) by (rewrite length_map; lia).
      now rewrite map_nth.
    + rewrite Forall_forall. intros i Hi.
      apply (Permutation_in _ HP), in_seq in Hi. lia.
Qed.

(** In a non-increasing list, what comes after a cut is at most what
    comes before it. *)
Lemma non_increasing_cut {A} (key : A -> Z) (n : nat) (l : list A) :
  non_increasing (map key l) ->
  Forall (fun a => Forall (fun b => key a <= key b) (firstn n l))
         (skipn n l).
Proof.
  intros H. apply Sorted_StronglySorted in H; [|intros x y z; lia].
  revert n. induction l as [|x xs IH]; intros n.
  - rewrite skipn_nil. constructor.
  - simpl in H. apply StronglySorted_inv in H as [Hs Hx].
    destruct n as [|n]; simpl.
    + apply Forall_forall. intros a _. constructor.
    + specialize (IH Hs n). rewrite Forall_forall in IH |- *.
      intros a Ha. constructor; [|now apply IH].
      rewrite Forall_forall in Hx. apply Hx, in_map.
      rewrite <- (firstn_skipn n xs). apply in_or_app. now right.
Qed.

(** X3. The rows kept are the most voted: the surviving rows split into
    the rows behind the table returned and the rows left out, and no row
    left out has more votes than a row kept. *)
Theorem top_100_are_the_most_voted
        (argsort : list Z -> list nat) (to_numeric_text : string -> option Q)
        (basics : list Basics.row) (ratings : list Ratings.row)
        (table : list Movie) :
  argsort_spec argsort ->
  surviving basics ratings <> [] ->
  get_top_100_movies argsort to_numeric_text basics ratings = Ok table ->
  exists kept rest,
    chosen argsort basics ratings = Ok kept /\
    Forall2 (row_of to_numeric_text) kept table /\
    Permutation (kept ++ rest) (surviving basics ratings) /\
    Forall (fun m =>
              Forall (fun k => Merged.numVotes m <= Merged.numVotes k) kept)
           rest.
Proof.
  intros Hs Hne Ht.
  destruct (get_top_100_movies_sources argsort to_numeric_text Hs
              basics ratings table Hne Ht) as (kept & Hc & HF).
  destruct (take_nargsort_desc argsort Merged.numVotes
              (surviving basics ratings) Hs) as (sorted & Hk & Hp & Hd).
  unfold chosen in Hc. rewrite Hk in Hc. simpl in Hc. injection Hc as <-.
  exists (head 100 sorted), (skipn 100 sorted). split.
  { unfold chosen. now rewrite Hk. }
  split; [exact HF|]. split.
  - unfold head. now rewrite firstn_skipn.
  - now apply non_increasing_cut.
Qed.

(** X4. When no row survives, [insert] gives the empty table the index
    of the ranks: [get_top_100_movies] raises nothing and returns 100
    rows with [Rank] 1 to 100 and every other field missing. *)
Theorem no_surviving_row_gives_100_missing_rows
        (argsort : list Z -> list nat) (to_numeric_text : string -> option Q)
        (basics : list Basics.row) (ratings : list Ratings.row) :
  argsort_spec argsort ->
  surviving basics ratings = [] ->
  get_top_100_movies argsort to_numeric_text basics ratings
  = Ok (map missing_row (map Z.of_nat (seq 1 100))).
Proof.
  intros Hs He. unfold get_top_100_movies. rewrite He. simpl mapM.
  cbn [rbind].
  destruct (sort_values_numVotes_spec argsort Hs []) as (sorted & -> & Hp & _).
  apply Permutation_sym, Permutation_nil in Hp. subst sorted.
  reflexivity.
Qed.

(** ** Further properties of [analyze_data] *)

Lemma In_dropna {A} (x : A) (l : list (option A)) :
  In x (dropna l) <-> In (Some x) l.
Proof.
  induction l as [|[y|] l IH]; simpl.
  - tauto.
  - rewrite IH. split; intros [H|H]; auto; left; congruence.
  - rewrite IH. split; [auto|]. intros [H|H]; [discriminate|auto].
Qed.

Lemma fold_min_spec (xs : list Z) (x : Z) :
  In (fold_left Z.min xs x) (x :: xs) /\
  Forall (fun y => fold_left Z.min xs x <= y) (x :: xs).
Proof.
  revert x. induction xs as [|y ys IH]; intros x; simpl.
  - split; [now left|]. repeat constructor. lia.
  - destruct (IH (Z.min x y)) as [Hin Hall]. split.
    + destruct Hin as [Hm|Hm]; [|now right; right].
      rewrite <- Hm. destruct (Z.min_spec x y) as [[_ ->]|[_ ->]]; auto.
    + inversion Hall as [|? ? Hh Ht]; subst.
      constructor; [lia|]. constructor; [lia|exact Ht].
Qed.

Lemma fold_max_spec (xs : list Z) (x : Z) :
  In (fold_left Z.max xs x) (x :: xs) /\
  Forall (fun y => y <= fold_left Z.max xs x) (x :: xs).
Proof.
  revert x. induction xs as [|y ys IH]; intros x; simpl.
  - split; [now left|]. repeat constructor. lia.
  - destruct (IH (Z.max x y)) as [Hin Hall]. split.
    + destruct Hin as [Hm|Hm]; [|now right; right].
      rewrite <- Hm. destruct (Z.max_spec x y) as [[_ ->]|[_ ->]]; auto.
    + inversion Hall as [|? ? Hh Ht]; subst.
      constructor; [lia|]. constructor; [lia|exact Ht].
Qed.

Lemma min_Int64_spec (l : list (option Z)) :
  match min_Int64 l with
  | Some y => In (Some y) l /\ forall y', In (Some y') l -> y <= y'
  | None => forall y, ~ In (Some y) l
  end.
Proof.
  unfold min_Int64. destruct (dropna l) as [|x xs] eqn:E.
  - intros y Hy. apply In_dropna in Hy. now rewrite E in Hy.
  - destruct (fold_min_spec xs x) as [Hin Hall]. rewrite <- E in *. split.
    + now apply In_dropna.
    + intros y' Hy'. apply In_dropna in Hy'.
      rewrite Forall_forall in Hall. now apply Hall.
Qed.

Lemma max_Int64_spec (l : list (option Z)) :
  match max_Int64 l with
  | Some y => In (Some y) l /\ forall y', In (Some y') l -> y' <= y
  | None => forall y, ~ In (Some y) l
  end.
Proof.
  unfold max_Int64. destruct (dropna l) as [|x xs] eqn:E.
  - intros y Hy. apply In_dropna in Hy. now rewrite E in Hy.
  - destruct (fold_max_spec xs x) as [Hin Hall]. rewrite <- E in *. split.
    + now apply In_dropna.
    + intros y' Hy'. apply In_dropna in Hy'.
      rewrite Forall_forall in Hall. now apply Hall.
Qed.

Lemma year_is_spec (y : Z) (r : FrameRow) :
  year_is (Some y) r = true <-> Year (movie r) = Some y.
Proof.
  unfold year_is. destruct (Year (movie r)) as [b|]; [|split; discriminate].
  rewrite Z.eqb_eq. split; congruence.
Qed.

(** The title [title_of_year] finds is that of the first row of the
    year. *)
Lemma title_of_year_first (y : Z) (d : DataFrame) :
  In (Some y) (column Year d) ->
  exists pre r post,
    rows d = pre ++ r :: post /\
    Year (movie r) = Some y /\
    Forall (fun p => Year (movie p) <> Some y) pre /\
    title_of_year (Some y) d = Ok (Title (movie r)).
Proof.
  unfold column, title_of_year. generalize (rows d) as l.
  induction l as [|x xs IH]; intros H; simpl in H; [contradiction|].
  destruct (year_is (Some y) x) eqn:E.
  - exists [], x, xs. cbn [filter app]. rewrite E. repeat split; auto.
    now apply year_is_spec.
  - assert (Hx : Year (movie x) <> Some y).
    { intros Hx. apply year_is_spec in Hx. congruence. }
    destruct H as [H|H]; [contradiction|].
    destruct (IH H) as (pre & r & post & -> & Hr & Hpre & Ht).
    exists (x :: pre), r, post. cbn [filter app] in *. rewrite E.
    repeat split; auto.
Qed.

Lemma title_of_year_none (d : DataFrame) :
  title_of_year None d = Raise IndexError.
Proof.
  unfold title_of_year.
  replace (filter (year_is None) (rows d)) with (@nil FrameRow);
    [reflexivity|].
  induction (rows d) as [|x xs IH]; simpl; auto.
Qed.

(** X5. The oldest movie that [analyze_data] names has the least year of
    the table and is the first row of that year; the newest has the
    greatest year and is the first row of that year. *)
Theorem oldest_and_newest_are_first_of_their_year (d : DataFrame) :
  (forall y,
     min_Int64 (column Year d) = Some y ->
     (forall r y', In r (rows d) -> Year (movie r) = Some y' -> y <= y') /\
     exists pre r post,
       rows d = pre ++ r :: post /\
       Year (movie r) = Some y /\
       Forall (fun p => Year (movie p) <> Some y) pre /\
       title_of_year (Some y) d = Ok (Title (movie r))) /\
  (forall y,
     max_Int64 (column Year d) = Some y ->
     (forall r y', In r (rows d) -> Year (movie r) = Some y' -> y' <= y) /\
     exists pre r post,
       rows d = pre ++ r :: post /\
       Year (movie r) = Some y /\
       Forall (fun p => Year (movie p) <> Some y) pre /\
       title_of_year (Some y) d = Ok (Title (movie r))).
Proof.
  split; intros y Hy.
  - pose proof (min_Int64_spec (column Year d)) as H. rewrite Hy in H.
    destruct H as [Hin Hle]. split; [|now apply title_of_year_first].
    intros r y' Hr Hy'. apply Hle. unfold column.
    rewrite <- Hy'. now apply (in_map (fun r => Year (movie r))).
  - pose proof (max_Int64_spec (column Year d)) as H. rewrite Hy in H.
    destruct H as [Hin Hle]. split; [|now apply title_of_year_first].
    intros r y' Hr Hy'. apply Hle. unfold column.
    rewrite <- Hy'. now apply (in_map (fun r => Year (movie r))).
Qed.

(** [value_counts] returns under the contract of [np.argsort]: the table
    of counts, reordered with the counts non-increasing. *)
Lemma value_counts_spec {K} (argsort : list Z -> list nat)
      (eqb : K -> K -> bool) (l : list K) :
  argsort_spec argsort ->
  exists counts,
    value_counts argsort eqb l = Ok counts /\
    Permutation counts (count_table eqb l) /\
    non_increasing (map (fun p => Z.of_nat (snd p)) counts).
Proof.
  intros Hs. unfold value_counts.
  apply (take_nargsort_desc argsort (fun p : K * nat => Z.of_nat (snd p))
           (count_table eqb l) Hs).
Qed.

Lemma top_genres_returns (argsort : list Z -> list nat) (n : nat)
      (d : DataFrame) :
  argsort_spec argsort -> exists top, top_genres argsort n d = Ok top.
Proof.
  intros Hs. unfold top_genres.
  destruct (value_counts_spec argsort String.eqb (dropna (all_genres d)) Hs)
    as (counts & -> & _). simpl. eauto.
Qed.

Lemma for_each_print_returns {A} (l : list A) (f : A -> printed) (w : World) :
  fst (for_each l (fun x => print (f x)) w) = Ok tt.
Proof.
  revert w. induction l as [|x xs IH]; intros w; simpl; [reflexivity|].
  unfold bind. simpl. apply IH.
Qed.

Lemma has_a_year_min (d : DataFrame) :
  match min_Int64 (column Year d) with
  | Some _ => has_a_year d = true
  | None => has_a_year d = false
  end.
Proof.
  pose proof (min_Int64_spec (column Year d)) as H.
  destruct (min_Int64 (column Year d)) as [y|].
  - destruct H as [Hin _]. unfold column in Hin.
    apply in_map_iff in Hin as (r & Hy & Hr).
    apply existsb_exists. exists r. split; [exact Hr|]. now rewrite Hy.
  - unfold has_a_year. destruct (existsb _ _) eqn:E; [|reflexivity].
    apply existsb_exists in E as (r & Hr & Hy).
    destruct (Year (movie r)) as [y|] eqn:Ey; [|discriminate].
    elim (H y). unfold column. rewrite <- Ey.
    now apply (in_map (fun r => Year (movie r))).
Qed.

(** X6. [analyze_data] returns when some row of the table has a year and
    raises [IndexError] otherwise (an empty table, or years all missing:
    no row equals the missing minimum, and [.values[0]] has nothing to
    take). *)
Theorem analyze_data_returns_iff_a_year
        (argsort : list Z -> list nat) (df : loc) (w : World)
        (d : DataFrame) :
  argsort_spec argsort ->
  nth_error (heap w) df = Some d ->
  fst (analyze_data argsort df w)
  = if has_a_year d then Ok tt else Raise IndexError.
Proof.
  intros Hs Hd. unfold analyze_data, bind at 1, deref. rewrite Hd.
  unfold bind at 1. cbn [print]. unfold bind at 1. cbn [print].
  unfold bind at 1. cbn [print]. unfold bind at 1. cbn [print].
  unfold bind at 1. cbn [print].
  pose proof (has_a_year_min d) as Hmin.
  pose proof (min_Int64_spec (column Year d)) as Hm.
  pose proof (max_Int64_spec (column Year d)) as HM.
  destruct (min_Int64 (column Year d)) as [y|].
  - rewrite Hmin. destruct Hm as [Hin _].
    destruct (title_of_year_first y d Hin) as (_ & r & _ & _ & _ & _ & Ht).
    unfold bind at 1. unfold bind at 1. unfold lift at 1. rewrite Ht.
    cbn [print]. unfold bind at 1.
    destruct (max_Int64 (column Year d)) as [y2|].
    + destruct HM as [Hin2 _].
      destruct (title_of_year_first y2 d Hin2)
        as (_ & r2 & _ & _ & _ & _ & Ht2).
      unfold bind at 1. unfold lift at 1. rewrite Ht2. cbn [print].
      unfold bind at 1. unfold lift at 1.
      destruct (top_genres_returns argsort 3 d Hs) as (top & ->).
      unfold bind at 1. cbn [print].
      apply for_each_print_returns.
    + elim (HM y Hin).
  - rewrite Hmin. unfold bind at 1. unfold bind at 1. unfold lift at 1.
    now rewrite title_of_year_none.
Qed.

(** ** Further properties of the label counts *)

Section Uniques.

Context {K : Type} (eqb : K -> K -> bool).
Hypothesis eqb_eq : forall a b, eqb a b = true <-> a = b.

Lemma uniques_In (x : K) (l : list K) : In x (uniques eqb l) <-> In x l.
Proof.
  induction l as [|y ys IH]; simpl; [tauto|].
  rewrite filter_In, IH. split.
  - intros [H|[H _]]; auto.
  - intros [H|H]; [now left|].
    destruct (eqb y x) eqn:E.
    + left. now apply eqb_eq.
    + right. split; [exact H|reflexivity].
Qed.

Lemma uniques_NoDup (l : list K) : NoDup (uniques eqb l).
Proof.
  induction l as [|y ys IH]; simpl; constructor.
  - rewrite filter_In. intros [_ H].
    assert (E : eqb y y = true) by now apply eqb_eq.
    now rewrite E in H.
  - now apply NoDup_filter.
Qed.

Lemma occurrences_pos (x : K) (l : list K) :
  In x l -> (0 < occurrences eqb x l)%nat.
Proof.
  intros H. unfold occurrences.
  assert (Hin : In x (filter (eqb x) l)).
  { apply filter_In. split; [exact H|]. now apply eqb_eq. }
  destruct (filter (eqb x) l); [contradiction|simpl; lia].
Qed.

Lemma count_table_keys (l : list K) :
  map fst (count_table eqb l) = uniques eqb l.
Proof.
  unfold count_table. rewrite map_map. simpl. apply map_id.
Qed.

Lemma count_table_entry (l : list K) (p : K * nat) :
  In p (count_table eqb l) ->
  In (fst p) l /\ snd p = occurrences eqb (fst p) l /\ (0 < snd p)%nat.
Proof.
  unfold count_table. intros H. apply in_map_iff in H as (x & <- & Hx).
  apply (proj1 (uniques_In x l)) in Hx. simpl. repeat split; auto.
  now apply occurrences_pos.
Qed.

End Uniques.

Lemma NoDup_firstn {A} (n : nat) (l : list A) : NoDup l -> NoDup (firstn n l).
Proof.
  intros H. rewrite <- (firstn_skipn n l) in H.
  now apply NoDup_app_remove_r in H.
Qed.

(** X7. The labels [value_counts().head(n)] returns are the [n] most
    frequent: they are distinct, as many as [n] and the number of labels
    allow, each with the positive number of its occurrences, in
    non-increasing order of count, and no label left out occurs more
    often than one returned. *)
Theorem top_genres_are_the_most_frequent
        (argsort : list Z -> list nat) (n : nat) (d : DataFrame) :
  argsort_spec argsort ->
  exists top,
    top_genres argsort n d = Ok top /\
    NoDup (map fst top) /\
    length top = Nat.min n (length (uniques String.eqb (labels d))) /\
    Forall (fun gc =>
              In (fst gc) (labels d) /\
              snd gc = occurrences String.eqb (fst gc) (labels d) /\
              (0 < snd gc)%nat) top /\
    non_increasing (map (fun gc => Z.of_nat (snd gc)) top) /\
    (forall g,
       In g (labels d) -> ~ In g (map fst top) ->
       Forall (fun gc =>
                 (occurrences String.eqb g (labels d) <= snd gc)%nat) top).
Proof.
  intros Hs. unfold top_genres. fold (labels d).
  destruct (value_counts_spec argsort String.eqb (labels d) Hs)
    as (counts & -> & Hp & Hd).
  cbn [rbind]. exists (head n counts). split; [reflexivity|].
  assert (Hk : NoDup (map fst counts)).
  { eapply Permutation_NoDup;
      [apply Permutation_sym, Permutation_map, Hp|].
    rewrite count_table_keys. apply uniques_NoDup, String.eqb_eq. }
  unfold head. split; [|split; [|split; [|split]]].
  - rewrite <- firstn_map. now apply NoDup_firstn.
  - rewrite length_firstn, (Permutation_length Hp).
    unfold count_table. now rewrite length_map.
  - apply Forall_forall. intros gc Hgc.
    apply (count_table_entry String.eqb String.eqb_eq).
    apply (Permutation_in _ Hp).
    rewrite <- (firstn_skipn n counts). apply in_or_app. now left.
  - rewrite <- firstn_map. now apply Sorted_firstn.
  - intros g Hg Hout.
    assert (Hin : In (g, occurrences String.eqb g (labels d)) counts).
    { apply (Permutation_in _ (Permutation_sym Hp)).
      unfold count_table.
      apply (in_map (fun x => (x, occurrences String.eqb x (labels d)))).
      now apply (proj2 (uniques_In String.eqb String.eqb_eq g (labels d))). }
    rewrite <- (firstn_skipn n counts) in Hin.
    apply in_app_or in Hin as [Hin|Hin].
    { elim Hout. rewrite <- firstn_map.
      rewrite firstn_map. now apply (in_map fst) in Hin. }
    pose proof (non_increasing_cut (fun p : string * nat => Z.of_nat (snd p))
                  n counts Hd) as Hcut.
    rewrite Forall_forall in Hcut. specialize (Hcut _ Hin).
    eapply Forall_impl; [|exact Hcut]. simpl. intros gc H. lia.
Qed.

(** The [Genres] column of the expanded frame is the series of labels
    that [analyze_data] and [create_visualizations] count. *)
Lemma explode_genres (d : DataFrame) :
  column Genres (explode d) = all_genres d.
Proof.
  unfold all_genres, column, explode. cbn [rows].
  induction (rows d) as [|r rs IH]; cbn [flat_map map]; [reflexivity|].
  rewrite map_app, IH. f_equal.
  unfold explode_row. rewrite map_map. simpl. apply map_id.
Qed.

(** ** Further properties of [create_visualizations] *)

Lemma dropna_decades (years : list (option Z)) :
  dropna (map decade_of years) = map (fun y => (y / 10) * 10) (dropna years).
Proof.
  induction years as [|[y|] ys IH]; simpl; congruence.
Qed.

Lemma is_monotonic_Sorted (l : list Z) :
  is_monotonic_increasing l = true -> Sorted Z.le l.
Proof.
  induction l as [|x [|y l] IH]; intros H.
  - constructor.
  - repeat constructor.
  - cbn [is_monotonic_increasing] in H. apply andb_prop in H as [Hxy Hl].
    constructor; [now apply IH|]. constructor. now apply Z.leb_le.
Qed.

Lemma Sorted_le_NoDup (l : list Z) :
  Sorted Z.le l -> NoDup l -> StronglySorted Z.lt l.
Proof.
  intros Hs Hn. apply Sorted_StronglySorted in Hs; [|intros x y z; lia].
  induction Hs as [|x l Hl IH Hx]; [constructor|].
  inversion Hn as [|? ? Hnx Hnl]; subst.
  constructor; [now apply IH|].
  rewrite Forall_forall in Hx |- *. intros y Hy.
  specialize (Hx y Hy). assert (x <> y) by (intros ->; contradiction). lia.
Qed.

Lemma nth_seq_0 (n i : nat) : (i < n)%nat -> nth i (seq 0 n) O = i.
Proof. intros H. now rewrite seq_nth. Qed.

(** [sort_index] returns the table with its keys in strictly ascending
    order when the keys are distinct. *)
Lemma sort_index_spec (argsort : list Z -> list nat)
      (table : list (Z * nat)) :
  argsort_spec argsort ->
  NoDup (map fst table) ->
  exists sorted,
    sort_index argsort table = Ok sorted /\
    Permutation sorted table /\
    StronglySorted Z.lt (map fst sorted).
Proof.
  intros Hs Hn. unfold sort_index.
  destruct (is_monotonic_increasing (map fst table)) eqn:E.
  - exists table. repeat split; auto.
    apply Sorted_le_NoDup; [now apply is_monotonic_Sorted|exact Hn].
  - destruct (Hs (map fst table)) as [Hp Hd].
    assert (Ha : nargsort argsort (map fst table) true
                 = argsort (map fst table)).
    { unfold nargsort. rewrite <- (map_id (argsort (map fst table))) at 2.
      apply map_ext_in. intros i Hi.
      apply (Permutation_in _ Hp), in_seq in Hi. apply nth_seq_0. lia. }
    rewrite Ha. rewrite length_map in Hp.
    destruct (take_permutation _ _ Hp) as (sorted & Ht & Hps).
    exists sorted. repeat split; auto.
    apply Sorted_le_NoDup.
    + destruct table as [|d0 tl] eqn:Et.
      { apply Permutation_sym, Permutation_nil in Hps. subst. constructor. }
      rewrite <- Et in *. rewrite (take_total d0) in Ht.
      * injection Ht as <-. rewrite map_map.
        erewrite map_ext_in; [exact Hd|].
        intros i Hi. simpl.
        apply (Permutation_in _ Hp), in_seq in Hi.
        rewrite (nth_indep _ 0 (fst d0)) by (rewrite length_map; lia).
        now rewrite map_nth.
      * rewrite Forall_forall. intros i Hi.
        apply (Permutation_in _ Hp), in_seq in Hi. lia.
    + eapply Permutation_NoDup; [|exact Hn].
      apply Permutation_map, Permutation_sym, Hps.
Qed.

Lemma list_sum_permutation (l l' : list nat) :
  Permutation l l' -> list_sum l = list_sum l'.
Proof.
  induction 1; simpl; lia.
Qed.

Section Counting.

Context {K : Type} (eqb : K -> K -> bool).
Hypothesis eqb_eq : forall a b, eqb a b = true <-> a = b.

Lemma occurrences_not_In (x : K) (l : list K) :
  ~ In x l -> occurrences eqb x l = O.
Proof.
  intros H. unfold occurrences.
  destruct (filter (eqb x) l) as [|y ys] eqn:E; [reflexivity|].
  assert (Hy : In y (filter (eqb x) l)) by (rewrite E; now left).
  apply filter_In in Hy as [Hy Hxy]. apply eqb_eq in Hxy. now subst.
Qed.

(** Leaving one key out of a sum over distinct keys. *)
Lemma list_sum_without (f : K -> nat) (y : K) (u : list K) :
  NoDup u ->
  list_sum (map f u)
  = (list_sum (map f (filter (fun x => negb (eqb y x)) u))
     + if existsb (eqb y) u then f y else O)%nat.
Proof.
  induction 1 as [|x u Hx Hu IH]; simpl; [reflexivity|].
  destruct (eqb y x) eqn:E; simpl.
  - apply eqb_eq in E. subst x.
    destruct (existsb (eqb y) u) eqn:Ex.
    + apply existsb_exists in Ex as (z & Hz & Hyz).
      apply eqb_eq in Hyz. subst z. contradiction.
    + rewrite IH. lia.
  - rewrite IH. destruct (existsb (eqb y) u); lia.
Qed.

(** The counts of the distinct values add up to the length of the
    list. *)
Lemma count_table_total (l : list K) :
  list_sum (map snd (count_table eqb l)) = length l.
Proof.
  unfold count_table. rewrite map_map. cbn [snd].
  induction l as [|y ys IH]; [reflexivity|].
  cbn [uniques map list_sum length].
  assert (Hocc : forall x,
             occurrences eqb x (y :: ys)
             = ((if eqb x y then 1 else 0) + occurrences eqb x ys)%nat).
  { intros x. unfold occurrences. simpl. now destruct (eqb x y). }
  rewrite Hocc.
  assert (Hyy : eqb y y = true) by now apply eqb_eq. rewrite Hyy.
  rewrite (map_ext_in _ (fun x => occurrences eqb x ys)).
  2:{ intros x Hx. apply filter_In in Hx as [_ Hx]. rewrite Hocc.
      destruct (eqb x y) eqn:E; [|reflexivity].
      apply eqb_eq in E. subst x. now rewrite Hyy in Hx. }
  rewrite (list_sum_without (fun x => occurrences eqb x ys) y
             (uniques eqb ys) (uniques_NoDup eqb eqb_eq ys)) in IH.
  unfold list_sum in *. cbn [fold_right].
  destruct (existsb (eqb y) (uniques eqb ys)) eqn:Ex.
  - lia.
  - rewrite (occurrences_not_In y ys).
    + lia.
    + intros H. apply (uniques_In eqb eqb_eq) in H.
      assert (existsb (eqb y) (uniques eqb ys) = true).
      { apply existsb_exists. exists y. split; [exact H|now apply eqb_eq]. }
      congruence.
Qed.

End Counting.

Lemma occurrences_map_length {A} (f : A -> Z) (x : Z) (l : list A) :
  occurrences Z.eqb x (map f l) = length (filter (fun a => x =? f a) l).
Proof.
  unfold occurrences. induction l as [|a l IH]; simpl; [reflexivity|].
  destruct (x =? f a); simpl; now rewrite IH.
Qed.

Lemma Zeqb_eq (a b : Z) : (a =? b) = true <-> a = b.
Proof. apply Z.eqb_eq. Qed.

(** The bars of Panel B. *)
Lemma decade_counts_spec (argsort : list Z -> list nat)
      (years : list (option Z)) :
  argsort_spec argsort ->
  exists bars,
    decade_counts argsort (map decade_of years) = Ok bars /\
    StronglySorted Z.lt (map fst bars) /\
    Forall (fun dc =>
              fst dc mod 10 = 0 /\
              snd dc = length (filter (in_decade (fst dc)) (dropna years)) /\
              (0 < snd dc)%nat) bars /\
    list_sum (map snd bars) = length (dropna years).
Proof.
  intros Hs. unfold decade_counts.
  set (decades := dropna (map decade_of years)).
  destruct (value_counts_spec argsort Z.eqb decades Hs)
    as (counts & -> & Hp & _).
  cbn [rbind].
  assert (Hk : NoDup (map fst counts)).
  { eapply Permutation_NoDup;
      [apply Permutation_sym, Permutation_map, Hp|].
    rewrite count_table_keys. apply uniques_NoDup, Zeqb_eq. }
  destruct (sort_index_spec argsort counts Hs Hk) as (bars & -> & Hb & Hsorted).
  exists bars. split; [reflexivity|]. split; [exact Hsorted|]. split.
  - apply Forall_forall. intros dc Hdc.
    apply (Permutation_in _ Hb), (Permutation_in _ Hp) in Hdc.
    destruct (count_table_entry Z.eqb Zeqb_eq decades dc Hdc)
      as (Hin & Hc & Hpos).
    unfold decades in Hin, Hc. rewrite dropna_decades in Hin, Hc.
    apply in_map_iff in Hin as (y0 & Hy0 & _).
    apply decade_of_year in Hy0 as [Hm _].
    split; [exact Hm|]. split; [|exact Hpos].
    rewrite Hc, occurrences_map_length. f_equal.
    apply filter_ext. intros y. unfold in_decade.
    destruct (fst dc =? y / 10 * 10) eqn:E.
    + apply Z.eqb_eq in E. symmetry in E.
      apply decade_of_year in E as [_ Hr]. symmetry.
      apply andb_true_intro. split; [apply Z.leb_le|apply Z.ltb_lt]; lia.
    + symmetry. apply not_true_is_false. intros H.
      apply andb_prop in H as [H1 H2].
      apply Z.leb_le in H1. apply Z.ltb_lt in H2.
      assert (y / 10 * 10 = fst dc) by (apply decade_of_year; lia).
      apply Z.eqb_neq in E. congruence.
  - rewrite (list_sum_permutation _ (map snd (count_table Z.eqb decades))).
    + rewrite (count_table_total Z.eqb Zeqb_eq). unfold decades.
      now rewrite dropna_decades, length_map.
    + apply Permutation_map. now transitivity counts.
Qed.

(** *** Panel C *)

Lemma str_contains_tail (g : string) (c : ascii) (s : string) :
  str_contains g s = true -> str_contains g (String c s) = true.
Proof.
  intros H. cbn [str_contains]. rewrite H.
  now destruct (String.prefix g (String c s)).
Qed.

Lemma prefix_contains (g s : string) :
  String.prefix g s = true -> str_contains g s = true.
Proof.
  intros H. destruct s; cbn [str_contains]; now rewrite H.
Qed.

Lemma str_split_head (sep : ascii) (s : string) :
  exists hd tl, str_split sep s = hd :: tl /\ String.prefix hd s = true.
Proof.
  induction s as [|c rest (hd & tl & E & Hp)]; cbn [str_split].
  - now exists EmptyString, [].
  - destruct (Ascii.eqb c sep).
    + now exists EmptyString, (str_split sep rest).
    + rewrite E. exists (String c hd), tl. split; [reflexivity|].
      cbn [String.prefix]. now destruct (ascii_dec c c).
Qed.

(** A label obtained by splitting the text at the commas occurs in the
    text. *)
Lemma split_label_contained (g s : string) :
  In g (str_split "," s) -> str_contains g s = true.
Proof.
  induction s as [|c rest IH]; cbn [str_split].
  - intros [<-|[]]. reflexivity.
  - destruct (Ascii.eqb c ",").
    + intros [<-|H]; [reflexivity|]. apply str_contains_tail, IH, H.
    + destruct (str_split_head "," rest) as (hd & tl & E & Hp).
      rewrite E in *. intros [<-|H].
      * apply prefix_contains. cbn [String.prefix].
        now destruct (ascii_dec c c).
      * apply str_contains_tail, IH. now right.
Qed.

Lemma has_label_contains (g : string) (r : FrameRow) :
  has_label g r = true -> text_contains g r = true.
Proof.
  unfold has_label, text_contains, split_genres.
  destruct (Genres (movie r)) as [s|]; [|discriminate].
  rewrite dropna_map_Some. intros H.
  apply existsb_exists in H as (x & Hx & E).
  apply String.eqb_eq in E. subst x. now apply split_label_contained.
Qed.

Lemma mask_select_missing {A} (mask : list (option bool)) (l : list A) :
  length mask = length l -> In None mask ->
  mask_select mask l = Raise ValueError.
Proof.
  revert l. induction mask as [|[b|] ms IH]; intros [|x xs] Hl Hin;
    simpl in *; try discriminate; try contradiction; auto.
  destruct Hin as [Hin|Hin]; [discriminate|].
  rewrite IH; auto.
Qed.

Section Contains.

Variable contains : string -> cell -> result (option bool).
Hypothesis contains_ok : contains_spec contains.

Variable g : string.
Hypothesis g_plain : plain_pattern g = true.

(** The rows selected for a plain label are the rows whose text contains
    it. *)
Lemma select_by_contains (l selected : list FrameRow) :
  rbind (mapM (contains g) (map (fun r => Genres (movie r)) l))
        (fun mask => mask_select mask l) = Ok selected ->
  selected = filter (text_contains g) l.
Proof.
  destruct contains_ok as [Hsome Hnone].
  revert selected. induction l as [|r rs IH]; intros selected.
  - intros [= <-]. reflexivity.
  - cbn [map mapM filter]. unfold text_contains at 1.
    destruct (Genres (movie r)) as [s|] eqn:E.
    + rewrite (Hsome g s g_plain). cbn [rbind].
      destruct (mapM (contains g) (map (fun r => Genres (movie r)) rs))
        as [mask|e]; cbn [rbind mask_select] in *; [|discriminate].
      destruct (mask_select mask rs) as [rest|e]; [|discriminate].
      cbn [rbind]. intros [= <-]. now rewrite (IH rest eq_refl).
    + destruct (Hnone g g_plain) as [-> | ->]; cbn [rbind];
        destruct (mapM (contains g) (map (fun r => Genres (movie r)) rs))
          as [mask|e]; cbn [rbind mask_select] in *; try discriminate.
      destruct (mask_select mask rs) as [rest|e]; [|discriminate].
      cbn [rbind]. intros [= <-]. now rewrite (IH rest eq_refl).
Qed.

Lemma genre_movies_Ok (d : DataFrame) (selected : list FrameRow) :
  genre_movies contains g d = Ok selected ->
  selected = filter (text_contains g) (rows d).
Proof.
  unfold genre_movies, column. apply select_by_contains.
Qed.

(** pandas 2: the mask of a plain label has a missing entry for each
    missing cell. *)
Lemma mask_missing_stays_missing (cells : list cell) :
  missing_stays_missing contains ->
  mapM (contains g) cells = Ok (map (option_map (str_contains g)) cells).
Proof.
  intros Hna. destruct contains_ok as [Hsome _].
  induction cells as [|[s|] cs IH]; cbn [mapM map option_map];
    [reflexivity| |].
  - now rewrite (Hsome g s g_plain), IH.
  - now rewrite (Hna g g_plain), IH.
Qed.

Lemma genre_movies_missing (d : DataFrame) :
  missing_stays_missing contains ->
  In None (column Genres d) ->
  genre_movies contains g d = Raise ValueError.
Proof.
  intros Hna H. unfold genre_movies.
  rewrite (mask_missing_stays_missing _ Hna). cbn [rbind].
  apply mask_select_missing.
  - unfold column. now rewrite !length_map.
  - apply in_map_iff. exists None. split; [reflexivity|exact H].
Qed.

(** pandas 3: the mask of a plain label has no missing entry, and a row
    without genres is not selected. *)
Lemma genre_movies_missing_is_false (d : DataFrame) :
  missing_is_false contains ->
  genre_movies contains g d = Ok (filter (text_contains g) (rows d)).
Proof.
  intros Hna. destruct contains_ok as [Hsome _].
  unfold genre_movies, column.
  induction (rows d) as [|r rs IH]; [reflexivity|].
  cbn [map mapM filter]. unfold text_contains at 1.
  destruct (mapM (contains g) (map (fun r => Genres (movie r)) rs))
    as [mask|e]; cbn [rbind] in IH; [|discriminate].
  destruct (Genres (movie r)) as [s|].
  - rewrite (Hsome g s g_plain). cbn [rbind mask_select].
    now rewrite IH.
  - rewrite (Hna g g_plain). cbn [rbind mask_select].
    now rewrite IH.
Qed.

(** No cell is missing: the version of pandas decides nothing. *)
Lemma genre_movies_present (d : DataFrame) :
  Forall (fun r => Genres (movie r) <> None) (rows d) ->
  genre_movies contains g d = Ok (filter (text_contains g) (rows d)).
Proof.
  destruct contains_ok as [Hsome _].
  unfold genre_movies, column.
  induction 1 as [|r rs Hr _ IH]; [reflexivity|].
  cbn [map mapM filter]. unfold text_contains at 1.
  destruct (mapM (contains g) (map (fun r => Genres (movie r)) rs))
    as [mask|e]; cbn [rbind] in IH; [|discriminate].
  destruct (Genres (movie r)) as [s|]; [|congruence].
  rewrite (Hsome g s g_plain). cbn [rbind mask_select].
  now rewrite IH.
Qed.

End Contains.

(** The two instances meet the contract. *)
Lemma contains_mask_spec :
  contains_spec contains_mask /\ missing_stays_missing contains_mask.
Proof.
  split; [split|]; intros pat; intros; unfold contains_mask;
    cbn [option_map]; auto.
Qed.

Lemma contains_or_false_spec :
  contains_spec contains_or_false /\ missing_is_false contains_or_false.
Proof.
  split; [split|]; intros pat; intros; unfold contains_or_false; auto.
Qed.

(** With plain labels and no missing cell, every [str.contains] that
    meets the contract selects the rows the substring test selects. *)
Lemma genre_data_any_engine
      (contains : string -> cell -> result (option bool))
      (ls : list string) (d : DataFrame) :
  contains_spec contains ->
  Forall (fun g => plain_pattern g = true) ls ->
  Forall (fun r => Genres (movie r) <> None) (rows d) ->
  genre_data contains ls d = genre_data contains_mask ls d.
Proof.
  intros Hc Hp Hd. induction Hp as [|g ls Hg _ IH]; [reflexivity|].
  cbn [genre_data].
  rewrite (genre_movies_present contains Hc g Hg d Hd).
  rewrite (genre_movies_present contains_mask (proj1 contains_mask_spec)
             g Hg d Hd).
  now rewrite IH.
Qed.

(** X8. The ratings handed to Panel C, for labels that are plain
    patterns (no character that a regular expression reads as an
    operator): every row that carries one of the labels contributes its
    rating under that label, and every entry comes from a row whose
    [Genres] text contains the label. *)
Theorem violins_keep_every_labelled_row
        (contains : string -> cell -> result (option bool))
        (ls : list string) (d : DataFrame)
        (violins : list (string * option Q)) :
  contains_spec contains ->
  Forall (fun g => plain_pattern g = true) ls ->
  genre_data contains ls d = Ok violins ->
  (forall g r, In g ls -> In r (rows d) -> has_label g r = true ->
               In (g, Rating (movie r)) violins) /\
  (forall g x, In (g, x) violins ->
               In g ls /\
               exists r s, In r (rows d) /\ Genres (movie r) = Some s /\
                           str_contains g s = true /\
                           x = Rating (movie r)).
Proof.
  intros Hc Hp. revert violins.
  induction Hp as [|l ls Hl _ IH]; intros violins.
  - intros [= <-]. split; [intros g r []|intros g x []].
  - cbn [genre_data].
    destruct (genre_movies contains l d) as [selected|e] eqn:Es;
      [|discriminate].
    destruct (genre_data contains ls d) as [rest|e]; [|discriminate].
    cbn [rbind]. intros [= <-].
    rewrite (genre_movies_Ok contains Hc l Hl d selected Es).
    destruct (IH rest eq_refl) as [IH1 IH2]. split.
    + intros g r [<-|Hg] Hr Hlab; apply in_or_app.
      * left. apply in_map_iff. exists r. split; [reflexivity|].
        apply filter_In. split; [exact Hr|].
        now apply has_label_contains.
      * right. now apply IH1.
    + intros g x Hx. apply in_app_or in Hx as [Hx|Hx].
      * apply in_map_iff in Hx as (r & [= <- <-] & Hr).
        apply filter_In in Hr as [Hr Hcont]. split; [now left|].
        unfold text_contains in Hcont.
        destruct (Genres (movie r)) as [s|] eqn:E; [|discriminate].
        now exists r, s.
      * destruct (IH2 g x Hx) as [Hg Hr]. split; [now right|exact Hr].
Qed.

(** *** The run of [create_visualizations] *)

Lemma with_decade_movies (d : DataFrame) :
  map movie (rows (with_decade d)) = map movie (rows d).
Proof.
  unfold with_decade. apply setitem_movies.
  unfold column. now rewrite !length_map.
Qed.

Lemma with_decade_column {A} (f : Movie -> A) (d : DataFrame) :
  column f (with_decade d) = column f d.
Proof.
  unfold column. rewrite <- (map_map movie f), with_decade_movies.
  now rewrite map_map.
Qed.

Lemma with_decade_getitem (d : DataFrame) :
  well_formed d ->
  getitem "Decade" (with_decade d) = Some (map decade_of (column Year d)).
Proof.
  intros H. unfold with_decade. apply setitem_getitem; [|exact H].
  unfold column. now rewrite !length_map.
Qed.

Lemma with_decade_top_genres argsort (n : nat) (d : DataFrame) :
  top_genres argsort n (with_decade d) = top_genres argsort n d.
Proof.
  unfold top_genres, all_genres. now rewrite with_decade_column.
Qed.

Lemma create_visualizations_run argsort contains (df : loc) (w : World)
      (d : DataFrame) :
  argsort_spec argsort ->
  nth_error (heap w) df = Some d ->
  well_formed d ->
  exists bars top,
    decade_counts argsort (map decade_of (column Year d)) = Ok bars /\
    top_genres argsort 5 d = Ok top /\
    create_visualizations argsort contains df w
    = match genre_data contains (map fst top) (with_decade d) with
      | Ok [] =>
          (Raise ValueError,
           {| heap := set_nth df (with_decade d) (heap w);
              stdout := stdout w; files := files w |})
      | Ok violins =>
          (Ok tt,
           {| heap := set_nth df (with_decade d) (heap w);
              stdout := stdout w
                        ++ [Text "Saved visualizations to 'movie_analysis.png'"];
              files := ("movie_analysis.png"%string,
                        Png (figure_of (with_decade d)
                               (map (fun r => (Rating (movie r),
                                               Votes (movie r),
                                               Runtime (movie r))) (rows d))
                               bars violins))
                         :: filter (fun f => negb (String.eqb
                                                     "movie_analysis.png"
                                                     (fst f)))
                                   (files w) |})
      | Raise e =>
          (Raise e,
           {| heap := set_nth df (with_decade d) (heap w);
              stdout := stdout w; files := files w |})
      end.
Proof.
  intros Hs Hd Hwf.
  destruct (decade_counts_spec argsort (column Year d) Hs)
    as (bars & Hb & _).
  destruct (top_genres_returns argsort 5 d Hs) as (top & Ht).
  exists bars, top. split; [exact Hb|]. split; [exact Ht|].
  unfold create_visualizations, bind at 1, deref at 1. rewrite Hd.
  cbv zeta. unfold bind at 1, store at 1. cbv beta iota.
  fold (with_decade d).
  unfold bind at 1, deref at 1. cbn [heap].
  rewrite nth_error_set_nth
    by (apply nth_error_Some; rewrite Hd; discriminate).
  unfold bind at 1, lift at 1. rewrite (with_decade_getitem d Hwf).
  cbv beta iota. unfold decade_counts in Hb.
  destruct (value_counts argsort Z.eqb
              (dropna (map decade_of (column Year d)))) as [counts|e] eqn:Ec;
    [|discriminate].
  cbn [rbind] in Hb.
  unfold bind at 1, lift at 1. cbv beta iota.
  unfold bind at 1, lift at 1. rewrite Hb. cbv beta iota.
  unfold bind at 1, lift at 1. rewrite with_decade_top_genres, Ht.
  cbv beta iota. unfold bind at 1, lift at 1.
  destruct (genre_data contains (map fst top) (with_decade d))
    as [[|v violins]|e]; reflexivity.
Qed.


Lemma top_genres_nonempty argsort (n : nat) (d : DataFrame)
      (top : list (string * nat)) :
  argsort_spec argsort ->
  top_genres argsort (S n) d = Ok top -> labels d <> [] -> top <> [].
Proof.
  intros Hs Ht Hl. unfold top_genres in Ht. fold (labels d) in Ht.
  destruct (value_counts_spec argsort String.eqb (labels d) Hs)
    as (counts & Hc & Hp & _).
  rewrite Hc in Ht. cbn [rbind] in Ht. injection Ht as <-.
  destruct (labels d) as [|x xs]; [congruence|].
  destruct counts as [|c cs]; [|discriminate].
  apply Permutation_nil in Hp. discriminate.
Qed.

Lemma top_genres_labels argsort (n : nat) (d : DataFrame)
      (top : list (string * nat)) :
  argsort_spec argsort ->
  top_genres argsort n d = Ok top ->
  Forall (fun gc => In (fst gc) (labels d)) top.
Proof.
  intros Hs Ht. unfold top_genres in Ht. fold (labels d) in Ht.
  destruct (value_counts_spec argsort String.eqb (labels d) Hs)
    as (counts & Hc & Hp & _).
  rewrite Hc in Ht. cbn [rbind] in Ht. injection Ht as <-.
  apply Forall_forall. intros gc Hgc. apply In_head in Hgc.
  apply (Permutation_in _ Hp) in Hgc.
  now apply (count_table_entry String.eqb String.eqb_eq) in Hgc.
Qed.

Lemma label_has_row (g : string) (d : DataFrame) :
  In g (labels d) -> exists r, In r (rows d) /\ has_label g r = true.
Proof.
  unfold labels, all_genres, column. rewrite flat_map_concat_map, map_map.
  rewrite <- flat_map_concat_map.
  induction (rows d) as [|r rs IH]; cbn [flat_map]; [intros []|].
  unfold cell. rewrite dropna_app. intros H.
  apply in_app_or in H as [H|H].
  - exists r. split; [now left|]. unfold has_label.
    apply existsb_exists. exists g. split; [exact H|apply String.eqb_refl].
  - destruct (IH H) as (r' & Hr' & Hl). exists r'. split; [now right|exact Hl].
Qed.

Lemma genre_data_missing_is_false
      (contains : string -> cell -> result (option bool))
      (ls : list string) (d : DataFrame) :
  contains_spec contains ->
  missing_is_false contains ->
  Forall (fun g => plain_pattern g = true) ls ->
  genre_data contains ls d
  = Ok (flat_map (fun g => map (fun r => (g, Rating (movie r)))
                               (filter (text_contains g) (rows d))) ls).
Proof.
  intros Hc Hna. induction 1 as [|g ls Hg _ IH]; [reflexivity|].
  cbn [genre_data flat_map].
  rewrite (genre_movies_missing_is_false contains Hc g Hg d Hna), IH.
  reflexivity.
Qed.

(** X10. A row without genres in Panel C, when the labels are plain
    patterns and some label exists. Where a missing cell gives a missing
    mask entry (pandas 2, [Genres] a column of Python objects),
    [create_visualizations] raises [ValueError] at the first label: the
    [Decade] column has been assigned by then, and nothing is written or
    printed. Where a missing cell gives [False] (pandas 3, [Genres] a
    [str] column), nothing is raised: the figure is saved, and every
    entry of Panel C comes from a row that has genres. *)
Theorem missing_genres_in_panel_c
        argsort (contains : string -> cell -> result (option bool))
        (df : loc) (w : World) (d : DataFrame) :
  argsort_spec argsort ->
  contains_spec contains ->
  nth_error (heap w) df = Some d ->
  well_formed d ->
  labels d <> [] ->
  Forall (fun g => plain_pattern g = true) (labels d) ->
  In None (column Genres d) ->
  (missing_stays_missing contains ->
   create_visualizations argsort contains df w
   = (Raise ValueError,
      {| heap := set_nth df (with_decade d) (heap w);
         stdout := stdout w; files := files w |})) /\
  (missing_is_false contains ->
   exists fig,
     create_visualizations argsort contains df w
     = (Ok tt,
        {| heap := set_nth df (with_decade d) (heap w);
           stdout := stdout w
                     ++ [Text "Saved visualizations to 'movie_analysis.png'"];
           files := ("movie_analysis.png"%string, Png fig)
                      :: filter (fun f => negb (String.eqb
                                                  "movie_analysis.png"
                                                  (fst f)))
                                (files w) |}) /\
     genre_violins fig <> [] /\
     Forall (fun gx =>
               exists m s,
                 In m (map movie (rows d)) /\ Genres m = Some s /\
                 str_contains (fst gx) s = true /\ snd gx = Rating m)
            (genre_violins fig)).
Proof.
  intros Hs Hc Hd Hwf Hl Hp Hm.
  destruct (create_visualizations_run argsort contains df w d Hs Hd Hwf)
    as (bars & top & _ & Ht & Hrun).
  pose proof (top_genres_nonempty argsort 4 d top Hs Ht Hl) as Hne.
  pose proof (top_genres_labels argsort 5 d top Hs Ht) as Hin.
  assert (Hplain : Forall (fun g => plain_pattern g = true) (map fst top)).
  { apply Forall_forall. intros g Hg.
    apply in_map_iff in Hg as (gc & <- & Hgc).
    rewrite Forall_forall in Hin, Hp. apply Hp, Hin, Hgc. }
  split; intros Hna; rewrite Hrun; clear Hrun.
  - destruct top as [|gc more]; [congruence|].
    cbn [map genre_data].
    inversion Hplain as [|? ? Hg _]; subst.
    rewrite (genre_movies_missing contains Hc (fst gc) Hg _ Hna);
      [reflexivity|].
    now rewrite with_decade_column.
  - rewrite (genre_data_missing_is_false contains _ _ Hc Hna Hplain).
    set (violins := flat_map _ (map fst top)).
    assert (Hv : violins <> []).
    { destruct top as [|gc more]; [congruence|].
      inversion Hin as [|? ? Hgc _]; subst.
      destruct (label_has_row _ _ Hgc) as (r & Hr & Hlab).
      apply has_label_contains in Hlab.
      assert (Hr' : exists r', In r' (rows (with_decade d)) /\
                               movie r' = movie r).
      { assert (Hmv : In (movie r) (map movie (rows (with_decade d)))).
        { rewrite with_decade_movies. now apply in_map. }
        apply in_map_iff in Hmv as (r' & E & Hr'). eauto. }
      destruct Hr' as (r' & Hr' & E).
      assert (Hx : In (fst gc, Rating (movie r')) violins).
      { unfold violins. cbn [map flat_map]. apply in_or_app. left.
        apply in_map_iff. exists r'. split; [reflexivity|].
        apply filter_In. split; [exact Hr'|].
        unfold text_contains in *. now rewrite E. }
      intros Hnil. rewrite Hnil in Hx. exact Hx. }
    destruct violins as [|v vs] eqn:Ev; [congruence|].
    eexists. split; [reflexivity|]. cbn [genre_violins figure_of].
    split; [discriminate|].
    rewrite <- Ev. unfold violins. apply Forall_forall. intros [g x] Hx.
    apply in_flat_map in Hx as (g' & _ & Hx).
    apply in_map_iff in Hx as (r' & [= <- <-] & Hr').
    apply filter_In in Hr' as [Hr' Hcont]. unfold text_contains in Hcont.
    destruct (Genres (movie r')) as [s|] eqn:E; [|discriminate].
    exists (movie r'), s. cbn [fst snd]. repeat split; auto.
    rewrite <- with_decade_movies. now apply in_map.
Qed.

(** *** Assigning [Decade] twice *)

Lemma set_nth_twice {A} (p : nat) (x y : A) (l : list A) :
  set_nth p y (set_nth p x l) = set_nth p y l.
Proof.
  revert p. induction l as [|z zs IH]; intros [|p]; simpl; auto.
  now rewrite IH.
Qed.

Lemma set_nth_last {A} (x y : A) (l : list A) :
  set_nth (length l) y (l ++ [x]) = l ++ [y].
Proof. induction l; simpl; congruence. Qed.

Lemma with_decade_rows (d : DataFrame) :
  with_decade d
  = match index_of "Decade" (extra_columns d) with
    | Some p =>
        {| extra_columns := extra_columns d;
           rows := map (fun r =>
                          {| movie := movie r;
                             extras := set_nth p (decade_of (Year (movie r)))
                                               (extras r) |})
                       (rows d) |}
    | None =>
        {| extra_columns := extra_columns d ++ ["Decade"%string];
           rows := map (fun r =>
                          {| movie := movie r;
                             extras := extras r
                                       ++ [decade_of (Year (movie r))] |})
                       (rows d) |}
    end.
Proof.
  unfold with_decade, setitem, column.
  destruct (index_of "Decade" (extra_columns d)); f_equal;
    induction (rows d); simpl; congruence.
Qed.

Lemma with_decade_twice (d : DataFrame) :
  well_formed d -> with_decade (with_decade d) = with_decade d.
Proof.
  intros Hwf. rewrite (with_decade_rows d).
  destruct (index_of "Decade" (extra_columns d)) as [p|] eqn:E;
    rewrite with_decade_rows; cbn [extra_columns rows].
  - rewrite E. f_equal. rewrite map_map. apply map_ext. intros r.
    cbn [movie extras]. now rewrite set_nth_twice.
  - rewrite (index_of_app_new _ _ E). f_equal. rewrite map_map.
    apply map_ext_in. intros r Hr. cbn [movie extras]. f_equal.
    unfold well_formed in Hwf. rewrite Forall_forall in Hwf.
    rewrite <- (Hwf r Hr). apply set_nth_last.
Qed.

(** X11. Drawing twice changes nothing more: after one call of
    [create_visualizations] a second call leaves every dataframe object
    as the first call left it, whether the calls return or raise. *)
Theorem create_visualizations_twice
        argsort contains (df : loc) (w : World) (d : DataFrame) :
  nth_error (heap w) df = Some d ->
  well_formed d ->
  let w1 := snd (create_visualizations argsort contains df w) in
  heap (snd (create_visualizations argsort contains df w1)) = heap w1.
Proof.
  intros Hd Hwf w1.
  assert (H1 : heap w1 = set_nth df (with_decade d) (heap w))
    by now apply create_visualizations_heap.
  assert (Hd1 : nth_error (heap w1) df = Some (with_decade d)).
  { rewrite H1. apply nth_error_set_nth, nth_error_Some.
    rewrite Hd. discriminate. }
  rewrite (create_visualizations_heap argsort contains df w1 _ Hd1).
  rewrite with_decade_twice by exact Hwf.
  rewrite H1. apply set_nth_twice.
Qed.

(** ** The script and its files *)

Lemma keeps_file_preserves {A} (name : string) (c : M A) :
  preserves files c -> keeps_file name c.
Proof. intros H w. now rewrite H. Qed.

Lemma keeps_file_bind {A B} (name : string) (c : M A) (k : A -> M B) :
  keeps_file name c -> (forall a, keeps_file name (k a)) ->
  keeps_file name (bind c k).
Proof.
  intros Hc Hk w. unfold bind. specialize (Hc w).
  destruct (c w) as [[a|e] w']; simpl in Hc.
  - now rewrite Hk.
  - exact Hc.
Qed.

Lemma find_filter_other {A} (p q : A -> bool) (l : list A) :
  (forall x, p x = true -> q x = true) ->
  find p (filter q l) = find p l.
Proof.
  intros H. induction l as [|x xs IH]; simpl; [reflexivity|].
  destruct (q x) eqn:Eq; simpl.
  - now rewrite IH.
  - destruct (p x) eqn:Ep; [|exact IH].
    rewrite (H x Ep) in Eq. discriminate.
Qed.

Lemma write_file_other (name other : string) (c : file_content) :
  String.eqb name other = false -> keeps_file name (write_file other c).
Proof.
  intros Hne w. unfold write_file, lookup_file. cbn [snd files find fst].
  rewrite Hne. f_equal. apply find_filter_other.
  intros f Hf. apply String.eqb_eq in Hf. subst name.
  now rewrite String.eqb_sym, Hne.
Qed.

Lemma write_file_lookup (name : string) (c : file_content) (w : World) :
  lookup_file name (files (snd (write_file name c w))) = Some c.
Proof.
  unfold write_file, lookup_file. cbn [snd files find fst].
  now rewrite String.eqb_refl.
Qed.

Lemma store_files (l : loc) (d : DataFrame) : preserves files (store l d).
Proof. intros w. reflexivity. Qed.

Lemma top_movies_by_genre_files argsort (df : loc) :
  preserves files (top_movies_by_genre argsort df).
Proof. unfold top_movies_by_genre. preserves. Qed.

Lemma create_visualizations_keeps argsort contains (df : loc) (name : string) :
  String.eqb name "movie_analysis.png" = false ->
  keeps_file name (create_visualizations argsort contains df).
Proof.
  intros Hne. unfold create_visualizations.
  repeat (apply keeps_file_bind; [|intros ?]);
    first [ apply write_file_other; exact Hne
          | apply keeps_file_preserves;
            first [ apply store_files | apply preserves_deref
                  | apply preserves_lift | apply print_files ] ].
Qed.

Section Files.

Variable argsort : list Z -> list nat.
Variable to_numeric_text : string -> option Q.
Variable contains : string -> cell -> result (option bool).

(** X12. When Transform raises, the script stops with that exception
    after its three opening lines: no file is written and no dataframe
    object is created. *)
Theorem failed_transform_writes_nothing
        basics ratings (e : exn) (w : World) :
  get_top_100_movies argsort to_numeric_text basics ratings = Raise e ->
  main argsort to_numeric_text contains basics ratings w
  = (Raise e,
     {| heap := heap w;
        stdout := stdout w
                  ++ [Text "IMDb Top 100 Movies Analysis"]
                  ++ [Text "============================"]
                  ++ [Text "Downloading and processing data..."];
        files := files w |}).
Proof.
  intros H. unfold main, main_through_visualize.
  unfold bind, print, lift. cbn. rewrite H.
  now rewrite <- !app_assoc.
Qed.

(** X13. The CSV file is the table as Transform returned it: whatever
    the later steps do, return or raise, the file read back after the
    script holds the seven public columns of the 100 rows, without the
    [Decade] column that [create_visualizations] adds to the object. *)
Theorem csv_holds_the_returned_table
        basics ratings (table : list Movie) (w : World) :
  get_top_100_movies argsort to_numeric_text basics ratings = Ok table ->
  lookup_file "top_100_imdb_movies.csv"
              (files (snd (main argsort to_numeric_text contains basics ratings w)))
  = Some (Csv (frame_of table)) /\
  columns (frame_of table) = public_columns.
Proof.
  intros H. split; [|reflexivity].
  unfold main, main_through_visualize.
  unfold bind at 1. unfold bind at 1, print at 1. cbv beta iota.
  unfold bind at 1, print at 1. cbv beta iota.
  unfold bind at 1, print at 1. cbv beta iota.
  unfold bind at 1, lift at 1. rewrite H. cbv beta iota.
  unfold bind at 1, alloc at 1. cbv beta iota. cbn [heap stdout files].
  unfold bind at 1. unfold bind at 1, deref at 1. cbn [heap].
  rewrite nth_error_app2, Nat.sub_diag by lia. cbn [nth_error].
  match goal with
  | |- context [write_file ?n ?c ?w0] =>
      pose proof (write_file_lookup n c w0) as Hw;
      destruct (write_file n c w0) as [[[]|e] w6] eqn:Ew;
      [|discriminate Ew]
  end.
  cbn [snd] in Hw.
  match goal with
  | |- lookup_file _ (files (snd (let (r, w') := ?c w6 in _))) = _ =>
      assert (Hk : keeps_file "top_100_imdb_movies.csv" c);
      [|specialize (Hk w6); destruct (c w6) as [[l|e] w7];
        cbn [snd] in Hk]
  end.
  - apply keeps_file_bind; [|intros _].
    { apply keeps_file_preserves, print_files. }
    apply keeps_file_bind; [|intros _].
    { apply keeps_file_preserves, analyze_data_files. }
    apply keeps_file_bind; [|intros _].
    { apply keeps_file_preserves, print_files. }
    apply keeps_file_bind; [|intros _].
    { now apply create_visualizations_keeps. }
    apply keeps_file_preserves, preserves_ret.
  - pose proof (top_movies_by_genre_files argsort l) as Ht.
    match goal with
    | |- lookup_file _ (files (snd (?c w7))) = _ =>
        assert (Hp : preserves files c) by preserves;
        rewrite (Hp w7)
    end.
    congruence.
  - cbn [snd]. congruence.
Qed.

End Files.

(** ** The order of strings *)

Lemma ascii_compare_refl (a : ascii) : Ascii.compare a a = Eq.
Proof. unfold Ascii.compare. apply N.compare_refl. Qed.

Lemma ascii_compare_lt_trans (a b c : ascii) :
  Ascii.compare a b = Lt -> Ascii.compare b c = Lt ->
  Ascii.compare a c = Lt.
Proof.
  unfold Ascii.compare. rewrite !N.compare_lt_iff. lia.
Qed.

Lemma string_compare_lt_trans (s1 s2 s3 : string) :
  String.compare s1 s2 = Lt -> String.compare s2 s3 = Lt ->
  String.compare s1 s3 = Lt.
Proof.
  revert s2 s3.
  induction s1 as [|a s1 IH]; intros [|b s2] [|c s3]; simpl;
    try discriminate; auto.
  destruct (Ascii.compare a b) eqn:Eab; try discriminate;
    destruct (Ascii.compare b c) eqn:Ebc; try discriminate; intros H1 H2.
  - apply Ascii.compare_eq_iff in Eab, Ebc. subst.
    rewrite ascii_compare_refl. eauto.
  - apply Ascii.compare_eq_iff in Eab. subst. now rewrite Ebc.
  - apply Ascii.compare_eq_iff in Ebc. subst. now rewrite Eab.
  - now rewrite (ascii_compare_lt_trans a b c).
Qed.

Lemma string_compare_refl (s : string) : String.compare s s = Eq.
Proof.
  induction s as [|a s IH]; simpl; [reflexivity|].
  now rewrite ascii_compare_refl.
Qed.

Lemma string_leb_trans (s1 s2 s3 : string) :
  String.leb s1 s2 = true -> String.leb s2 s3 = true ->
  String.leb s1 s3 = true.
Proof.
  unfold String.leb.
  destruct (String.compare s1 s2) eqn:E12; try discriminate;
    destruct (String.compare s2 s3) eqn:E23; try discriminate; intros _ _.
  - apply String.compare_eq_iff in E12, E23. subst.
    now rewrite string_compare_refl.
  - apply String.compare_eq_iff in E12. subst. now rewrite E23.
  - apply String.compare_eq_iff in E23. subst. now rewrite E12.
  - now rewrite (string_compare_lt_trans s1 s2 s3).
Qed.

(** ** The order of the rows of a leaderboard *)

Section NaLast.

Context {A : Type} (leb : A -> A -> bool).
Hypothesis leb_total : forall a b, leb a b = true \/ leb b a = true.
Hypothesis leb_trans :
  forall a b c, leb a b = true -> leb b c = true -> leb a c = true.

Lemma na_last_total (x y : option A) :
  na_last leb x y = true \/ na_last leb y x = true.
Proof. destruct x, y; simpl; auto. Qed.

Lemma na_last_trans (x y z : option A) :
  na_last leb x y = true -> na_last leb y z = true ->
  na_last leb x z = true.
Proof. destruct x, y, z; simpl; eauto; discriminate. Qed.

End NaLast.

Lemma na_last_antisym (x y : option string) :
  na_last String.leb x y = true -> na_last String.leb y x = true -> x = y.
Proof.
  destruct x, y; simpl; try discriminate; auto.
  intros H1 H2. f_equal. now apply String.leb_antisym.
Qed.

Lemma na_eqb_eq (x y : option string) :
  na_eqb String.eqb x y = true <-> x = y.
Proof.
  destruct x, y; simpl; split; try discriminate; auto.
  - intros H. apply String.eqb_eq in H. congruence.
  - intros [= ->]. apply String.eqb_refl.
Qed.

Lemma StronglySorted_filter {A} (R : A -> A -> Prop) (P : A -> bool)
      (l : list A) :
  StronglySorted R l -> StronglySorted R (filter P l).
Proof.
  induction 1 as [|x l Hl IH Hx]; simpl; [constructor|].
  destruct (P x); [|exact IH].
  constructor; [exact IH|].
  rewrite Forall_forall in Hx |- *. intros y Hy.
  apply filter_In in Hy as [Hy _]. now apply Hx.
Qed.

Lemma StronglySorted_impl {A} (R R' : A -> A -> Prop) (P : A -> Prop)
      (l : list A) :
  (forall a b, P a -> P b -> R a b -> R' a b) ->
  Forall P l -> StronglySorted R l -> StronglySorted R' l.
Proof.
  intros H HP Hs. induction Hs as [|x l Hl IH Hx]; [constructor|].
  inversion HP as [|? ? Px Pl]; subst.
  constructor; [now apply IH|].
  rewrite Forall_forall in Hx, Pl |- *. intros y Hy.
  apply H; auto.
Qed.

Lemma StronglySorted_cut {A} (R : A -> A -> Prop) (n : nat) (l : list A) :
  StronglySorted R l ->
  StronglySorted R (firstn n l) /\
  Forall (fun r => Forall (fun b => R b r) (firstn n l)) (skipn n l).
Proof.
  intros Hs. revert n. induction Hs as [|x l Hl IH Hx]; intros [|n]; simpl.
  - split; constructor.
  - split; constructor.
  - split; [constructor|]. apply Forall_forall. intros; constructor.
  - destruct (IH n) as [H1 H2]. split.
    + constructor; [exact H1|].
      rewrite Forall_forall in Hx |- *. intros y Hy. apply Hx.
      eapply In_head. exact Hy.
    + rewrite Forall_forall in H2, Hx |- *. intros r Hr.
      constructor; [|now apply H2].
      apply Hx. rewrite <- (firstn_skipn n l). apply in_or_app. now right.
Qed.

Section Leaderboard.

Context {A : Type} (key : Movie -> option A) (leb : A -> A -> bool).
Hypothesis leb_total : forall a b, leb a b = true \/ leb b a = true.
Hypothesis leb_trans :
  forall a b c, leb a b = true -> leb b c = true -> leb a c = true.

Lemma genre_then_desc_total (r1 r2 : FrameRow) :
  genre_then_desc key leb r1 r2 = true \/
  genre_then_desc key leb r2 r1 = true.
Proof.
  unfold genre_then_desc.
  destruct (na_eqb String.eqb (Genres (movie r1)) (Genres (movie r2)))
    eqn:E.
  - apply na_eqb_eq in E. rewrite E.
    rewrite (proj2 (na_eqb_eq _ _) eq_refl).
    apply (na_last_total (fun a b => leb b a)). intros a b. apply leb_total.
  - destruct (na_eqb String.eqb (Genres (movie r2)) (Genres (movie r1)))
      eqn:E'.
    + apply na_eqb_eq in E'. rewrite E' in E.
      rewrite (proj2 (na_eqb_eq _ _) eq_refl) in E. discriminate.
    + apply na_last_total, String.leb_total.
Qed.

Lemma genre_then_desc_trans (r1 r2 r3 : FrameRow) :
  genre_then_desc key leb r1 r2 = true ->
  genre_then_desc key leb r2 r3 = true ->
  genre_then_desc key leb r1 r3 = true.
Proof.
  unfold genre_then_desc.
  set (geb := fun a b => leb b a).
  assert (Hk : forall x y z, na_last geb x y = true ->
                             na_last geb y z = true ->
                             na_last geb x z = true).
  { apply na_last_trans. unfold geb. eauto. }
  assert (Hg : forall x y z : option string,
             na_last String.leb x y = true ->
             na_last String.leb y z = true ->
             na_last String.leb x z = true).
  { apply na_last_trans, string_leb_trans. }
  generalize (Genres (movie r1)) (Genres (movie r2)) (Genres (movie r3)).
  intros g1 g2 g3.
  destruct (na_eqb String.eqb g1 g2) eqn:E12.
  - apply na_eqb_eq in E12. subst g2.
    destruct (na_eqb String.eqb g1 g3); eauto.
  - destruct (na_eqb String.eqb g2 g3) eqn:E23.
    + apply na_eqb_eq in E23. subst g3. rewrite E12. auto.
    + intros H12 H23.
      destruct (na_eqb String.eqb g1 g3) eqn:E13; [|eauto].
      apply na_eqb_eq in E13. subst g3.
      rewrite (na_last_antisym g1 g2 H12 H23) in E12.
      rewrite (proj2 (na_eqb_eq _ _) eq_refl) in E12. discriminate.
Qed.

Lemma genre_then_desc_same (g : string) (r1 r2 : FrameRow) :
  genre_is g r1 = true -> genre_is g r2 = true ->
  genre_then_desc key leb r1 r2 = key_desc key leb r1 r2.
Proof.
  unfold genre_is, genre_then_desc, key_desc. intros H1 H2.
  apply na_eqb_eq in H1, H2. rewrite H1, H2.
  now rewrite (proj2 (na_eqb_eq _ _) eq_refl).
Qed.

(** The rows of one label in the sorted frame are that label's rows in
    descending order of the key. *)
Lemma stable_sort_label (g : string) (l : list FrameRow) :
  let pool := filter (genre_is g) (stable_sort (genre_then_desc key leb) l) in
  Permutation pool (filter (genre_is g) l) /\
  StronglySorted (fun a b => key_desc key leb a b = true) pool.
Proof.
  intros pool. split.
  - apply Permutation_filter, stable_sort_permutation.
  - apply (StronglySorted_impl
             (fun a b => genre_then_desc key leb a b = true) _
             (fun r => genre_is g r = true)).
    + intros a b Ha Hb. now rewrite (genre_then_desc_same g).
    + apply Forall_forall. intros r Hr. now apply filter_In in Hr.
    + apply StronglySorted_filter, Sorted_StronglySorted.
      * intros a b c. apply genre_then_desc_trans.
      * apply stable_sort_Sorted, genre_then_desc_total.
Qed.

Lemma leaderboard_spec (g : string) (l : list FrameRow) :
  leaderboard_of key leb
    (head 3 (filter (genre_is g)
               (groupby_head 10 (stable_sort (genre_then_desc key leb) l))))
    (filter (genre_is g) l).
Proof.
  unfold head. rewrite groupby_head_label, firstn_firstn.
  change (Nat.min 3 10) with 3%nat.
  destruct (stable_sort_label g l) as [Hp Hs].
  set (pool := filter (genre_is g)
                 (stable_sort (genre_then_desc key leb) l)) in *.
  destruct (StronglySorted_cut _ 3 pool Hs) as [H1 H2].
  exists (skipn 3 pool). repeat split.
  - now rewrite firstn_skipn.
  - rewrite length_firstn. now rewrite (Permutation_length Hp).
  - exact H1.
  - exact H2.
Qed.

End Leaderboard.

Lemma Qle_bool_total (a b : Q) : Qle_bool a b = true \/ Qle_bool b a = true.
Proof.
  rewrite !Qle_bool_iff. destruct (Qlt_le_dec a b) as [H|H]; auto.
  left. now apply Qlt_le_weak.
Qed.

Lemma Qle_bool_trans (a b c : Q) :
  Qle_bool a b = true -> Qle_bool b c = true -> Qle_bool a c = true.
Proof. rewrite !Qle_bool_iff. apply Qle_trans. Qed.

Lemma Zleb_total (a b : Z) : (a <=? b) = true \/ (b <=? a) = true.
Proof. rewrite !Z.leb_le. lia. Qed.

Lemma Zleb_trans (a b c : Z) :
  (a <=? b) = true -> (b <=? c) = true -> (a <=? c) = true.
Proof. rewrite !Z.leb_le. lia. Qed.

(** ** The run of [top_movies_by_genre] *)

Lemma for_each_two_prints {X} (f h : X -> printed) (l : list X) (w : World) :
  for_each l (fun x => print (f x) ;;; print (h x)) w
  = (Ok tt,
     {| heap := heap w;
        stdout := stdout w ++ flat_map (fun x => [f x; h x]) l;
        files := files w |}).
Proof.
  revert w. induction l as [|x xs IH]; intros w; cbn [for_each flat_map].
  - unfold ret. rewrite app_nil_r. now destruct w.
  - unfold bind at 1. unfold bind at 1, print at 1 2. cbv beta iota.
    rewrite IH. cbn [heap stdout files]. now rewrite <- !app_assoc.
Qed.

Lemma top_movies_by_genre_run argsort (df : loc) (w : World)
      (d : DataFrame) :
  argsort_spec argsort ->
  nth_error (heap w) df = Some d ->
  exists top,
    top_genres argsort 3 d = Ok top /\
    top_movies_by_genre argsort df w
    = (Ok tt,
       {| heap := heap w;
          stdout := stdout w
                    ++ Text "===== Top Movies by Genre ====="
                       :: flat_map (leaderboards d) (map fst top);
          files := files w |}).
Proof.
  intros Hs Hd.
  destruct (top_genres_returns argsort 3 d Hs) as (top & Ht).
  exists top. split; [exact Ht|].
  unfold top_movies_by_genre, bind at 1, deref at 1. rewrite Hd.
  cbv zeta. unfold bind at 1, print at 1. cbv beta iota.
  unfold bind at 1, lift at 1.
  rewrite explode_genres. unfold top_genres in Ht. rewrite Ht.
  cbv beta iota.
  rewrite for_each_two_prints. cbn [heap stdout files].
  rewrite <- app_assoc. reflexivity.
Qed.

(** X14. [top_movies_by_genre] returns and prints, for each of the
    three most frequent labels (the labels [analyze_data] reports) and
    for no other, two tables of at most three rows: the rows of that
    label with the highest rating, and those with the most votes, best
    first; no row of the label that is left out beats a row that is
    shown. Dataframe objects and files stay as they were. *)
Theorem leaderboards_show_the_best_of_a_label
        argsort (df : loc) (w : World) (d : DataFrame) :
  argsort_spec argsort ->
  nth_error (heap w) df = Some d ->
  exists top out,
    top_genres argsort 3 d = Ok top /\
    top_movies_by_genre argsort df w
    = (Ok tt,
       {| heap := heap w; stdout := stdout w ++ out; files := files w |}) /\
    (forall g,
        In g (map fst top) ->
        exists by_rating by_votes,
          In (TopByRating g by_rating) out /\
          In (TopByVotes g by_votes) out) /\
    (forall g table,
        In (TopByRating g table) out ->
        In g (map fst top) /\
        exists board,
          table = map (fun r => (Title (movie r), Rating (movie r),
                                 Year (movie r))) board /\
          leaderboard_of Rating Qle_bool board
                         (filter (genre_is g) (rows (explode d)))) /\
    (forall g table,
        In (TopByVotes g table) out ->
        In g (map fst top) /\
        exists board,
          table = map (fun r => (Title (movie r), Votes (movie r),
                                 Year (movie r))) board /\
          leaderboard_of Votes Z.leb board
                         (filter (genre_is g) (rows (explode d)))).
Proof.
  intros Hs Hd.
  destruct (top_movies_by_genre_run argsort df w d Hs Hd) as (top & Ht & ->).
  exists top. eexists. split; [exact Ht|]. split; [reflexivity|].
  split; [|split].
  - intros g Hg. do 2 eexists. split; right; apply in_flat_map; exists g;
      (split; [exact Hg|]); unfold leaderboards;
      [left; reflexivity|right; left; reflexivity].
  - intros g table [H|H]; [discriminate|].
    apply in_flat_map in H as (g' & Hg' & H).
    unfold leaderboards in H. destruct H as [H|[H|[]]]; [|discriminate].
    injection H as <- <-. split; [exact Hg'|].
    unfold print_top. eexists. split; [reflexivity|].
    apply leaderboard_spec; [apply Qle_bool_total|apply Qle_bool_trans].
  - intros g table [H|H]; [discriminate|].
    apply in_flat_map in H as (g' & Hg' & H).
    unfold leaderboards in H. destruct H as [H|[H|[]]]; [discriminate|].
    injection H as <- <-. split; [exact Hg'|].
    unfold print_top. eexists. split; [reflexivity|].
    apply leaderboard_spec; [apply Zleb_total|apply Zleb_trans].
Qed.

Lemma example_table_returned :
  get_top_100_movies stable_argsort decimal_text
    (example_basics 100) (example_ratings spread_votes 100)
  = Ok example_table.
Proof. vm_compute. reflexivity. Qed.

Lemma non_integral_year_raises_witness :
  let half := fun _ : string => Some (3989 # 2) in
  get_top_100_movies stable_argsort half
    (example_basics 2) (example_ratings spread_votes 2)
  = Raise TypeError.
Proof.
  intros half.
  apply (non_integral_year_raises stable_argsort half
           (example_basics 2) (example_ratings spread_votes 2)
           {| Merged.tconst := "tt1";
              Merged.titleType := Some "movie"%string;
              Merged.primaryTitle := Some "m1"%string;
              Merged.startYear := Some "1951"%string;
              Merged.runtimeMinutes := Some "91"%string;
              Merged.genres := Some "Comedy,Musical,Romance"%string;
              Merged.averageRating := 61 # 10;
              Merged.numVotes := 1037 |}
           (3989 # 2)).
  - vm_compute. right. left. reflexivity.
  - reflexivity.
  - vm_compute. discriminate.
Defined.

Lemma top_100_are_the_most_voted_witness :
  exists table kept rest,
    get_top_100_movies stable_argsort decimal_text
      (example_basics 120) (example_ratings spread_votes 120) = Ok table /\
    chosen stable_argsort
      (example_basics 120) (example_ratings spread_votes 120) = Ok kept /\
    Forall2 (row_of decimal_text) kept table /\
    Permutation (kept ++ rest)
      (surviving (example_basics 120) (example_ratings spread_votes 120)) /\
    Forall (fun m =>
              Forall (fun k => Merged.numVotes m <= Merged.numVotes k) kept)
           rest /\
    length kept = 100%nat /\ length rest = 20%nat.
Proof.
  destruct (get_top_100_movies stable_argsort decimal_text
              (example_basics 120) (example_ratings spread_votes 120))
    as [table|e] eqn:Et; [|vm_compute in Et; discriminate Et].
  destruct (top_100_are_the_most_voted stable_argsort decimal_text
              (example_basics 120) (example_ratings spread_votes 120)
              table stable_argsort_spec)
    as (kept & rest & H1 & H2 & H3 & H4).
  - vm_compute. discriminate.
  - exact Et.
  - exists table, kept, rest. split; [reflexivity|].
    split; [exact H1|]. split; [exact H2|]. split; [exact H3|].
    split; [exact H4|].
    assert (Hk : length kept = 100%nat).
    { rewrite (Forall2_length H2). vm_compute in Et. injection Et as <-.
      reflexivity. }
    split; [exact Hk|].
    apply Permutation_length in H3. rewrite length_app, Hk in H3.
    change (length (surviving (example_basics 120)
                      (example_ratings spread_votes 120)))
      with 120%nat in H3.
    lia.
Defined.

Lemma no_surviving_row_gives_100_missing_rows_witness :
  get_top_100_movies stable_argsort decimal_text
    (example_basics 0) (example_ratings spread_votes 5)
  = Ok (map missing_row (map Z.of_nat (seq 1 100))).
Proof.
  apply (no_surviving_row_gives_100_missing_rows stable_argsort
           decimal_text (example_basics 0)
           (example_ratings spread_votes 5) stable_argsort_spec).
  reflexivity.
Defined.

Lemma analyze_data_returns_iff_a_year_witness :
  fst (analyze_data stable_argsort O (world_of (frame_of example_table)))
  = Ok tt /\
  fst (analyze_data stable_argsort O
         (world_of (frame_of (map missing_row [1; 2]))))
  = Raise IndexError.
Proof.
  split.
  - exact (analyze_data_returns_iff_a_year stable_argsort O
             (world_of (frame_of example_table)) (frame_of example_table)
             stable_argsort_spec eq_refl).
  - exact (analyze_data_returns_iff_a_year stable_argsort O
             (world_of (frame_of (map missing_row [1; 2])))
             (frame_of (map missing_row [1; 2]))
             stable_argsort_spec eq_refl).
Defined.

Lemma top_genres_are_the_most_frequent_witness :
  exists top,
    top_genres stable_argsort 3 (frame_of example_table) = Ok top /\
    NoDup (map fst top) /\
    length top = 3%nat.
Proof.
  destruct (top_genres_are_the_most_frequent stable_argsort 3
              (frame_of example_table) stable_argsort_spec)
    as (top & H1 & H2 & H3 & _).
  exists top. split; [exact H1|]. split; [exact H2|].
  rewrite H3. vm_compute. reflexivity.
Defined.

Lemma violins_keep_every_labelled_row_witness :
  plain_pattern "Music" = true /\
  genre_data contains_mask ["Music"%string] two_musicals
  = Ok [("Music"%string, Some (8 # 1)); ("Music"%string, Some (7 # 1))] /\
  genre_data contains_or_false ["Music"%string] two_musicals
  = Ok [("Music"%string, Some (8 # 1)); ("Music"%string, Some (7 # 1))] /\
  In ("Music"%string, Some (8 # 1))
     [("Music"%string, Some (8 # 1)); ("Music"%string, Some (7 # 1))].
Proof.
  split; [reflexivity|]. split; [reflexivity|]. split; [reflexivity|].
  apply (proj1 (violins_keep_every_labelled_row contains_mask
                  ["Music"%string] two_musicals
                  [("Music"%string, Some (8 # 1));
                   ("Music"%string, Some (7 # 1))]
                  (proj1 contains_mask_spec)
                  (Forall_cons "Music"%string
                     (eq_refl : plain_pattern "Music" = true)
                     (Forall_nil _))
                  eq_refl)
               "Music"%string (rated_row "Drama,Music" (8 # 1))).
  - now left.
  - now left.
  - reflexivity.
Defined.


Lemma missing_genres_in_panel_c_witness :
  create_visualizations stable_argsort contains_mask O
    (world_of frame_with_gap)
  = (Raise ValueError,
     {| heap := [with_decade frame_with_gap]; stdout := []; files := [] |}) /\
  exists fig,
    create_visualizations stable_argsort contains_or_false O
      (world_of frame_with_gap)
    = (Ok tt,
       {| heap := [with_decade frame_with_gap];
          stdout := [Text "Saved visualizations to 'movie_analysis.png'"];
          files := [("movie_analysis.png"%string, Png fig)] |}) /\
    genre_violins fig <> [].
Proof.
  assert (Hwf : well_formed frame_with_gap) by (repeat constructor).
  assert (Hl : labels frame_with_gap <> []) by (vm_compute; discriminate).
  assert (Hp : Forall (fun g => plain_pattern g = true)
                      (labels frame_with_gap))
    by (repeat constructor).
  assert (Hm : In None (column Genres frame_with_gap))
    by (right; left; reflexivity).
  split.
  - exact (proj1 (missing_genres_in_panel_c stable_argsort
                    contains_mask O (world_of frame_with_gap)
                    frame_with_gap stable_argsort_spec
                    (proj1 contains_mask_spec) eq_refl Hwf Hl Hp Hm)
                 (proj2 contains_mask_spec)).
  - destruct (proj2 (missing_genres_in_panel_c stable_argsort
                       contains_or_false O (world_of frame_with_gap)
                       frame_with_gap stable_argsort_spec
                       (proj1 contains_or_false_spec) eq_refl Hwf Hl Hp Hm)
                    (proj2 contains_or_false_spec))
      as (fig & Hrun & Hne & _).
    exists fig. split; [exact Hrun|exact Hne].
Defined.

Lemma create_visualizations_twice_witness :
  let w1 := snd (create_visualizations stable_argsort contains_mask O
                   (world_of frame_with_gap)) in
  heap (snd (create_visualizations stable_argsort contains_mask O w1)) = heap w1.
Proof.
  apply (create_visualizations_twice stable_argsort contains_mask O
           (world_of frame_with_gap) frame_with_gap eq_refl).
  repeat constructor.
Defined.

Lemma failed_transform_writes_nothing_witness :
  files (snd (main stable_argsort decimal_text contains_mask
                (example_basics 1) (example_ratings spread_votes 1)
                empty_world)) = [] /\
  fst (main stable_argsort decimal_text contains_mask
         (example_basics 1) (example_ratings spread_votes 1) empty_world)
  = Raise ValueError.
Proof.
  rewrite (failed_transform_writes_nothing stable_argsort decimal_text
             contains_mask
             (example_basics 1) (example_ratings spread_votes 1)
             ValueError empty_world eq_refl).
  split; reflexivity.
Defined.

Lemma csv_holds_the_returned_table_witness :
  lookup_file "top_100_imdb_movies.csv"
    (files (snd (main stable_argsort decimal_text contains_mask
                   (example_basics 100) (example_ratings spread_votes 100)
                   empty_world)))
  = Some (Csv (frame_of example_table)).
Proof.
  exact (proj1 (csv_holds_the_returned_table stable_argsort decimal_text
                  contains_mask
                  (example_basics 100) (example_ratings spread_votes 100)
                  example_table empty_world example_table_returned)).
Defined.

Lemma leaderboards_show_the_best_of_a_label_witness :
  exists out,
    top_movies_by_genre stable_argsort O (world_of (frame_of example_table))
    = (Ok tt, {| heap := [frame_of example_table]; stdout := out;
                 files := [] |}).
Proof.
  destruct (leaderboards_show_the_best_of_a_label stable_argsort O
              (world_of (frame_of example_table)) (frame_of example_table)
              stable_argsort_spec eq_refl)
    as (top & out & _ & H & _).
  exists out. exact H.
Defined.

Lemma oldest_and_newest_are_first_of_their_year_witness :
  exists y r,
    min_Int64 (column Year (frame_of example_table)) = Some y /\
    In r (rows (frame_of example_table)) /\
    Year (movie r) = Some y /\
    title_of_year (Some y) (frame_of example_table) = Ok (Title (movie r)).
Proof.
  destruct (min_Int64 (column Year (frame_of example_table))) as [y|] eqn:E;
    [|vm_compute in E; discriminate E].
  destruct (proj1 (oldest_and_newest_are_first_of_their_year
                     (frame_of example_table)) y E)
    as (_ & pre & r & post & Hrows & Hy & _ & Ht).
  exists y, r. split; [reflexivity|]. split; [|split; assumption].
  rewrite Hrows. apply in_or_app. right. now left.
Defined.

(** * The claims *)

(** C1. [get_top_100_movies] returns exactly 100 rows when at least 100
    rows survive the join and the type filter; when between 1 and 99 rows
    survive, the insertion of [Rank] raises [ValueError] (100 values
    against fewer rows) and no table is returned. Both under the
    condition that the year column converts to [Int64]. *)
Theorem get_top_100_movies_row_count
        (argsort : list Z -> list nat) (to_numeric_text : string -> option Q)
        (basics : list Basics.row) (ratings : list Ratings.row) :
  argsort_spec argsort ->
  years_castable to_numeric_text (surviving basics ratings) = true ->
  ((0 < length (surviving basics ratings) < 100)%nat ->
   get_top_100_movies argsort to_numeric_text basics ratings
   = Raise ValueError) /\
  ((100 <= length (surviving basics ratings))%nat ->
   exists table,
     get_top_100_movies argsort to_numeric_text basics ratings = Ok table /\
     length table = 100%nat).
Proof.
  intros Hs Hy. split; intros Hn.
  - now apply get_top_100_movies_short.
  - destruct (get_top_100_movies_full argsort to_numeric_text Hs
                basics ratings Hn Hy) as (table & Ht & Hl & _).
    eauto.
Qed.

Lemma get_top_100_movies_row_count_witness :
  argsort_spec stable_argsort /\
  years_castable decimal_text
    (surviving (example_basics 1) (example_ratings spread_votes 1)) = true /\
  get_top_100_movies stable_argsort decimal_text
    (example_basics 1) (example_ratings spread_votes 1) = Raise ValueError.
Proof.
  split; [exact stable_argsort_spec|]. split; [reflexivity|].
  apply (get_top_100_movies_row_count stable_argsort decimal_text
           (example_basics 1) (example_ratings spread_votes 1)).
  - exact stable_argsort_spec.
  - reflexivity.
  - simpl. lia.
Defined.

(** C1, as the specification states it, fails: one title survives and
    [get_top_100_movies] raises instead of returning it. *)
Lemma one_surviving_row_raises :
  length (surviving (example_basics 1) (example_ratings spread_votes 1))
  = 1%nat /\
  get_top_100_movies Npy.aquicksort decimal_text
    (example_basics 1) (example_ratings spread_votes 1) = Raise ValueError.
Proof. split; reflexivity. Qed.

(** C2. With at least 100 surviving rows, the table returned has exactly
    100 rows, its [Rank] column is 1, 2, ..., 100 and its [Votes] column
    is non-increasing; and a table is returned whenever the year column
    converts. *)
Theorem top_100_rows_ranks_votes
        (argsort : list Z -> list nat) (to_numeric_text : string -> option Q)
        (basics : list Basics.row) (ratings : list Ratings.row) :
  argsort_spec argsort ->
  (100 <= length (surviving basics ratings))%nat ->
  (forall table,
     get_top_100_movies argsort to_numeric_text basics ratings = Ok table ->
     length table = 100%nat /\
     map Rank table = map Z.of_nat (seq 1 100) /\
     votes_non_increasing table) /\
  (years_castable to_numeric_text (surviving basics ratings) = true ->
   exists table,
     get_top_100_movies argsort to_numeric_text basics ratings = Ok table).
Proof.
  intros Hs Hn.
  destruct (years_castable to_numeric_text (surviving basics ratings)) eqn:Hy.
  - destruct (get_top_100_movies_full argsort to_numeric_text Hs
                basics ratings Hn Hy) as (table & Ht & Hl & Hr & Hv).
    split; [|eauto]. intros table' Ht'. rewrite Ht in Ht'.
    injection Ht' as <-. auto.
  - split; [|discriminate]. intros table Ht.
    rewrite (get_top_100_movies_not_castable argsort to_numeric_text
               basics ratings Hy) in Ht.
    discriminate.
Qed.

Lemma top_100_rows_ranks_votes_witness :
  argsort_spec stable_argsort /\
  (100 <= length (surviving (example_basics 120)
                            (example_ratings spread_votes 120)))%nat /\
  exists table,
    get_top_100_movies stable_argsort decimal_text
      (example_basics 120) (example_ratings spread_votes 120) = Ok table /\
    length table = 100%nat /\
    map Rank table = map Z.of_nat (seq 1 100) /\
    votes_non_increasing table.
Proof.
  assert (Hn : (100 <= length (surviving (example_basics 120)
                                (example_ratings spread_votes 120)))%nat).
  { vm_compute. repeat constructor. }
  split; [exact stable_argsort_spec|]. split; [exact Hn|].
  destruct (top_100_rows_ranks_votes stable_argsort decimal_text
              (example_basics 120) (example_ratings spread_votes 120)
              stable_argsort_spec Hn) as [Hshape Hret].
  destruct Hret as (table & Ht); [vm_compute; reflexivity|].
  exists table. split; [exact Ht|]. now apply Hshape.
Defined.

(** C3. [sort_values('numVotes', ascending=False)] returns the rows of
    the table reordered with the votes non-increasing. The script names
    no [kind], so the order of rows with equal votes is the one the
    quicksort kernel of [np.argsort] leaves: it is the order they had
    before the sort when that kernel is stable, which [kind='quicksort']
    does not promise. *)
Theorem sort_values_numVotes_order
        (argsort : list Z -> list nat) (movies : list Movies.row) :
  argsort_spec argsort ->
  exists sorted,
    sort_values_numVotes argsort movies = Ok sorted /\
    Permutation sorted movies /\
    non_increasing (map Movies.numVotes sorted) /\
    (argsort_stable argsort -> sorted = sort_values_stable movies).
Proof.
  intros Hs.
  destruct (sort_values_numVotes_spec argsort Hs movies)
    as (sorted & Ht & Hp & Hd).
  exists sorted. repeat split; auto.
  intros Hst.
  pose proof (sort_values_numVotes_stable argsort Hs Hst movies) as H.
  rewrite Ht in H. now injection H.
Qed.

Lemma sort_values_numVotes_order_witness :
  argsort_spec stable_argsort /\
  argsort_stable stable_argsort /\
  exists sorted,
    sort_values_numVotes stable_argsort three_movies = Ok sorted /\
    Permutation sorted three_movies /\
    non_increasing (map Movies.numVotes sorted) /\
    sorted = sort_values_stable three_movies /\
    map Movies.primaryTitle sorted
    = [Some "b"; Some "a"; Some "c"]%string.
Proof.
  split; [exact stable_argsort_spec|].
  split; [exact stable_argsort_stable|].
  destruct (sort_values_numVotes_order stable_argsort three_movies
              stable_argsort_spec) as (sorted & H1 & H2 & H3 & H4).
  exists sorted. split; [exact H1|]. split; [exact H2|].
  split; [exact H3|]. split; [exact (H4 stable_argsort_stable)|].
  rewrite (H4 stable_argsort_stable). reflexivity.
Defined.

(** C3, as the specification states it, fails: of 601 titles that all
    have 1000 votes, the 100 that [get_top_100_movies] returns with
    numpy's generic quicksort are not the first 100 of the table in the
    order of the table, which are what a stable sort returns. *)
Lemma tied_votes_not_in_table_order :
  Forall (fun r => Ratings.numVotes r = 1000)
         (example_ratings tied_votes 601) /\
  (exists table,
      get_top_100_movies Npy.aquicksort decimal_text
        (example_basics 601) (example_ratings tied_votes 601) = Ok table /\
      map Title table
      <> map (fun k => Some ("m" ++ numeral k)%string) (seq 0 100)) /\
  (exists table,
      get_top_100_movies stable_argsort decimal_text
        (example_basics 601) (example_ratings tied_votes 601) = Ok table /\
      map Title table
      = map (fun k => Some ("m" ++ numeral k)%string) (seq 0 100)).
Proof.
  split; [|split].
  - unfold example_ratings. rewrite Forall_map. apply Forall_forall.
    reflexivity.
  - eexists. split; [vm_compute; reflexivity|]. vm_compute. discriminate.
  - eexists. split; [vm_compute; reflexivity|]. vm_compute. reflexivity.
Qed.

(** C4. On the table of 100 example titles, 50 rows carry the label
    [Music] and 25 carry [Musical] without it; [Music] is among the five
    most frequent labels and its distribution receives 75 ratings, the 25
    rows of [Musical] included. The labels are plain patterns and no cell
    is missing, so [str.contains] is the substring test whatever the
    version of pandas. *)
Theorem music_violin_takes_musical_rows :
  rbind (get_top_100_movies Npy.aquicksort decimal_text
           (example_basics 100) (example_ratings spread_votes 100))
    (fun table =>
       let d := frame_of table in
       rbind (top_genres Npy.aquicksort 5 d) (fun top =>
       rbind (genre_data contains_mask (map fst top) d) (fun violins =>
       rbind (genre_movies contains_mask "Music" d) (fun selected =>
       Ok (existsb (String.eqb "Music") (map fst top),
           length (filter (fun gr => String.eqb (fst gr) "Music") violins),
           length (filter (has_label "Music") (rows d)),
           length (filter (fun r => negb (has_label "Music" r))
                          selected))))))
  = Ok (true, 75%nat, 50%nat, 25%nat).
Proof. vm_compute. reflexivity. Qed.

(** The labels of the example are plain patterns and no cell is missing:
    every [str.contains] that meets the contract gives the 75 entries. *)
Lemma music_entries_any_engine
      (contains : string -> cell -> result (option bool)) :
  contains_spec contains ->
  rbind (get_top_100_movies Npy.aquicksort decimal_text
           (example_basics 100) (example_ratings spread_votes 100))
    (fun table =>
       let d := frame_of table in
       rbind (top_genres Npy.aquicksort 5 d) (fun top =>
       rbind (genre_data contains (map fst top) d) (fun violins =>
       Ok (length (filter (fun gr => String.eqb (fst gr) "Music")
                          violins),
           length (filter (has_label "Music") (rows d))))))
  = Ok (75%nat, 50%nat).
Proof.
  intros Hc.
  destruct (get_top_100_movies Npy.aquicksort decimal_text
              (example_basics 100) (example_ratings spread_votes 100))
    as [table|e] eqn:Et; [|vm_compute in Et; discriminate Et].
  vm_compute in Et. injection Et as <-.
  cbn [rbind]. cbv zeta.
  match goal with
  | |- context [top_genres Npy.aquicksort 5 ?d] =>
      destruct (top_genres Npy.aquicksort 5 d) as [top|e] eqn:Etop;
      [|vm_compute in Etop; discriminate Etop]
  end.
  vm_compute in Etop. injection Etop as <-.
  cbn [rbind].
  rewrite (genre_data_any_engine contains _ _ Hc).
  - vm_compute. reflexivity.
  - repeat constructor.
  - apply Forall_forall. intros r Hr.
    apply in_map_iff in Hr as (m & <- & Hm). cbn [movie].
    repeat (destruct Hm as [<-|Hm]; [discriminate|]). destruct Hm.
Qed.

(** C5. Printing the first three rows of the ten kept for each label is
    the same as keeping three rows for each label and printing them
    all: the two versions of the step act alike on every world. *)
Theorem top_10_then_3_is_top_3
        (argsort : list Z -> list nat) (df : loc) (w : World) :
  top_movies_by_genre argsort df w = top_movies_by_genre_top3 argsort df w.
Proof.
  unfold top_movies_by_genre, top_movies_by_genre_top3.
  apply bind_ext. intros d w1. cbv zeta.
  apply bind_ext. intros _ w2.
  apply bind_ext. intros top w3.
  apply for_each_ext. intros genre w4.
  now rewrite !print_top_of_10.
Qed.

Lemma occurrences_NoDup_exact (g : string) (l : list string) :
  NoDup l ->
  occurrences String.eqb g l
  = if existsb (String.eqb g) l then 1%nat else 0%nat.
Proof.
  unfold occurrences. induction 1 as [|x l Hx Hl IH]; [reflexivity|].
  cbn [filter existsb].
  destruct (String.eqb_spec g x) as [->|Hne]; cbn [orb length].
  - rewrite IH. destruct (existsb (String.eqb x) l) eqn:E; [|reflexivity].
    apply existsb_exists in E as (y & Hy & Exy).
    apply String.eqb_eq in Exy. subst y. contradiction.
  - exact IH.
Qed.

(** The table [value_counts().head(n)] gives for a list of labels. *)
Lemma most_frequent_labels argsort (n : nat) (l : list string) :
  argsort_spec argsort ->
  exists table,
    rbind (value_counts argsort String.eqb l)
          (fun counts => Ok (head n counts)) = Ok table /\
    NoDup (map fst table) /\
    length table = Nat.min n (length (uniques String.eqb l)) /\
    Forall (fun gc =>
              In (fst gc) l /\
              snd gc = occurrences String.eqb (fst gc) l /\
              (0 < snd gc)%nat) table /\
    non_increasing (map (fun gc => Z.of_nat (snd gc)) table) /\
    (forall g,
       In g l -> ~ In g (map fst table) ->
       Forall (fun gc => (occurrences String.eqb g l <= snd gc)%nat) table).
Proof.
  intros Hs.
  destruct (value_counts_spec argsort String.eqb l Hs)
    as (counts & -> & Hp & Hd).
  cbn [rbind]. exists (head n counts). split; [reflexivity|].
  assert (Hk : NoDup (map fst counts)).
  { eapply Permutation_NoDup;
      [apply Permutation_sym, Permutation_map, Hp|].
    rewrite count_table_keys. apply uniques_NoDup, String.eqb_eq. }
  unfold head. split; [|split; [|split; [|split]]].
  - rewrite <- firstn_map. now apply NoDup_firstn.
  - rewrite length_firstn, (Permutation_length Hp).
    unfold count_table. now rewrite length_map.
  - apply Forall_forall. intros gc Hgc.
    apply (count_table_entry String.eqb String.eqb_eq).
    apply (Permutation_in _ Hp).
    rewrite <- (firstn_skipn n counts). apply in_or_app. now left.
  - rewrite <- firstn_map. now apply Sorted_firstn.
  - intros g Hg Hout.
    assert (Hin : In (g, occurrences String.eqb g l) counts).
    { apply (Permutation_in _ (Permutation_sym Hp)).
      unfold count_table.
      apply (in_map (fun x => (x, occurrences String.eqb x l))).
      now apply (proj2 (uniques_In String.eqb String.eqb_eq g l)). }
    rewrite <- (firstn_skipn n counts) in Hin.
    apply in_app_or in Hin as [Hin|Hin].
    { elim Hout. rewrite <- firstn_map.
      rewrite firstn_map. now apply (in_map fst) in Hin. }
    pose proof (non_increasing_cut (fun p : string * nat => Z.of_nat (snd p))
                  n counts Hd) as Hcut.
    rewrite Forall_forall in Hcut. specialize (Hcut _ Hin).
    eapply Forall_impl; [|exact Hcut]. simpl. intros gc H. lia.
Qed.

(** C6. The labels are counted occurrence by occurrence: a row adds to
    each label the number of times the label occurs in its own
    comma-separated list, which is one for each of its labels when they
    are distinct and nothing for any other label; a row [Comedy,Romance]
    adds one to [Comedy], one to [Romance] and nothing elsewhere. The
    table that [value_counts().head(n)] reports exists, and holds the [n]
    most frequent labels, each once, with these counts. *)
Theorem genre_counts_by_label
        (argsort : list Z -> list nat) (n : nat) (cols : list string)
        (pre post : list FrameRow) (r : FrameRow) (s : string) :
  argsort_spec argsort ->
  Genres (movie r) = Some s ->
  let df := {| extra_columns := cols; rows := pre ++ r :: post |} in
  let others := {| extra_columns := cols; rows := pre ++ post |} in
  (forall g,
      occurrences String.eqb g (labels df)
      = (occurrences String.eqb g (labels others)
         + occurrences String.eqb g (str_split "," s))%nat) /\
  (NoDup (str_split "," s) ->
   forall g,
     occurrences String.eqb g (labels df)
     = Nat.add (occurrences String.eqb g (labels others))
               (if existsb (String.eqb g) (str_split "," s)
                then 1%nat else 0%nat)) /\
  (s = "Comedy,Romance"%string ->
   forall g,
     occurrences String.eqb g (labels df)
     = Nat.add (occurrences String.eqb g (labels others))
               (if String.eqb g "Comedy" || String.eqb g "Romance"
                then 1%nat else 0%nat)) /\
  exists table,
    top_genres argsort n df = Ok table /\
    NoDup (map fst table) /\
    length table = Nat.min n (length (uniques String.eqb (labels df))) /\
    Forall (fun gc =>
              In (fst gc) (labels df) /\
              snd gc = occurrences String.eqb (fst gc) (labels df) /\
              (0 < snd gc)%nat) table /\
    non_increasing (map (fun gc => Z.of_nat (snd gc)) table) /\
    (forall g,
       In g (labels df) -> ~ In g (map fst table) ->
       Forall (fun gc =>
                 (occurrences String.eqb g (labels df) <= snd gc)%nat)
              table).
Proof.
  intros Hs Hg df others.
  assert (H : forall g,
             occurrences String.eqb g (labels df)
             = (occurrences String.eqb g (labels others)
                + occurrences String.eqb g (str_split "," s))%nat).
  { intros g. unfold df, others. rewrite labels_rows, Hg.
    cbn [split_genres].
    rewrite dropna_map_Some, !occurrences_app.
    change (pre ++ post) with (pre ++ [] ++ post).
    assert (Hn : labels {| extra_columns := cols; rows := pre ++ post |}
                 = labels {| extra_columns := cols; rows := pre |}
                   ++ labels {| extra_columns := cols; rows := post |}).
    { unfold labels, all_genres, column. cbn [rows].
      rewrite map_app, flat_map_app. unfold cell. apply dropna_app. }
    simpl app. rewrite Hn, occurrences_app. lia. }
  split; [exact H|]. split; [|split].
  - intros Hnd g. rewrite H. f_equal. now apply occurrences_NoDup_exact.
  - intros -> g. rewrite H. f_equal.
    unfold occurrences. simpl.
    destruct (String.eqb g "Comedy"%string) eqn:E1,
             (String.eqb g "Romance"%string) eqn:E2;
      try reflexivity.
    apply String.eqb_eq in E1, E2. congruence.
  - unfold top_genres. fold (labels df).
    apply most_frequent_labels, Hs.
Qed.

Lemma genre_counts_by_label_witness :
  let df := {| extra_columns := [];
               rows := [row_with_genres "Action"]
                         ++ row_with_genres "Comedy,Romance"
                         :: [row_with_genres "Horror"] |} in
  occurrences String.eqb "Comedy"%string (labels df) = 1%nat /\
  occurrences String.eqb "Romance"%string (labels df) = 1%nat /\
  exists table,
    top_genres stable_argsort 3 df = Ok table /\
    length table = 3%nat /\
    NoDup (map fst table) /\
    Forall (fun gc => snd gc = 1%nat) table.
Proof.
  intros df.
  destruct (genre_counts_by_label stable_argsort 3 []
              [row_with_genres "Action"] [row_with_genres "Horror"]
              (row_with_genres "Comedy,Romance") "Comedy,Romance"
              stable_argsort_spec eq_refl)
    as (_ & _ & Hcr & table & Ht & Hnd & Hlen & Hall & _).
  split; [exact (Hcr eq_refl "Comedy"%string)|].
  split; [exact (Hcr eq_refl "Romance"%string)|].
  exists table. split; [exact Ht|]. split; [exact Hlen|].
  split; [exact Hnd|].
  eapply Forall_impl; [|exact Hall].
  intros gc (Hin & Hc & _). rewrite Hc.
  destruct Hin as [<-|[<-|[<-|[<-|[]]]]]; reflexivity.
Defined.

(** C6, as the specification states it, fails: a row that lists [Drama]
    twice is counted twice for [Drama]. *)
Lemma label_listed_twice_is_counted_twice :
  let df := {| extra_columns := [];
               rows := [row_with_genres "Drama,Drama";
                        row_with_genres "Comedy"] |} in
  top_genres Npy.aquicksort 3 df
  = Ok [("Drama"%string, 2%nat); ("Comedy"%string, 1%nat)] /\
  top_genres stable_argsort 3 df
  = Ok [("Drama"%string, 2%nat); ("Comedy"%string, 1%nat)] /\
  length (filter (has_label "Drama") (rows df)) = 1%nat.
Proof. repeat split. Qed.

Lemma genre_is_with_genres (g g' : string) (r : FrameRow) :
  genre_is g (with_genres r (Some g')) = String.eqb g g'.
Proof. unfold genre_is, with_genres. simpl. apply String.eqb_sym. Qed.



(** C8. Every row of the table returned comes from a surviving row of
    the input, and when that row's year field is the missing-value marker
    the [Year] of the output row is absent: neither a number nor an
    error. *)
Theorem absent_year_stays_absent
        (argsort : list Z -> list nat) (to_numeric_text : string -> option Q)
        (basics : list Basics.row) (ratings : list Ratings.row)
        (table : list Movie) :
  argsort_spec argsort ->
  surviving basics ratings <> [] ->
  get_top_100_movies argsort to_numeric_text basics ratings = Ok table ->
  exists src,
    chosen argsort basics ratings = Ok src /\
    Forall2 (fun m o =>
               row_of to_numeric_text m o /\
               (Merged.startYear m = Some missing_marker ->
                (exists c, clean_row to_numeric_text m = Ok c /\
                           Movies.startYear c = None) /\
                Year o = None))
            src table.
Proof.
  intros Hs Hne Ht.
  destruct (get_top_100_movies_sources argsort to_numeric_text Hs
              basics ratings table Hne Ht) as (src & Hc & HF).
  exists src. split; [exact Hc|].
  eapply Forall2_impl; [|exact HF].
  intros m o Hmo. split; [exact Hmo|]. intros Hm. split.
  - now apply clean_row_marker.
  - eapply row_of_marker; eauto.
Qed.

Lemma absent_year_stays_absent_witness :
  argsort_spec stable_argsort /\
  surviving (example_basics 100) (example_ratings spread_votes 100) <> [] /\
  get_top_100_movies stable_argsort decimal_text
    (example_basics 100) (example_ratings spread_votes 100)
  = Ok example_table /\
  exists src,
    chosen stable_argsort
      (example_basics 100) (example_ratings spread_votes 100) = Ok src /\
    Forall2 (fun m o =>
               row_of decimal_text m o /\
               (Merged.startYear m = Some missing_marker ->
                (exists c, clean_row decimal_text m = Ok c /\
                           Movies.startYear c = None) /\
                Year o = None))
            src example_table.
Proof.
  assert (H1 : surviving (example_basics 100)
                 (example_ratings spread_votes 100) <> [])
    by (vm_compute; discriminate).
  assert (H2 : get_top_100_movies stable_argsort decimal_text
                 (example_basics 100) (example_ratings spread_votes 100)
               = Ok example_table)
    by (vm_compute; reflexivity).
  split; [exact stable_argsort_spec|]. split; [exact H1|].
  split; [exact H2|].
  exact (absent_year_stays_absent stable_argsort decimal_text
           (example_basics 100) (example_ratings spread_votes 100)
           example_table stable_argsort_spec H1 H2).
Defined.

Lemma appends_nothing {A} (c : M A) :
  preserves stdout c -> appends c.
Proof.
  intros H w. exists []. now rewrite H, app_nil_r.
Qed.

Lemma appends_print (p : printed) : appends (print p).
Proof. intros w. now exists [p]. Qed.

Lemma appends_bind {A B} (c : M A) (k : A -> M B) :
  appends c -> (forall a, appends (k a)) -> appends (bind c k).
Proof.
  intros Hc Hk w. unfold bind. destruct (Hc w) as (o1 & H1).
  destruct (c w) as [[a|e] w']; simpl in H1.
  - destruct (Hk a w') as (o2 & H2). exists (o1 ++ o2).
    now rewrite H2, H1, app_assoc.
  - now exists o1.
Qed.

Lemma appends_for_each {A} (l : list A) (body : A -> M unit) :
  (forall x, appends (body x)) -> appends (for_each l body).
Proof.
  intros H. induction l as [|x xs IH]; simpl.
  - apply appends_nothing, preserves_ret.
  - apply appends_bind; auto.
Qed.

Lemma analyze_data_stdout argsort (df : loc) :
  appends (analyze_data argsort df).
Proof.
  unfold analyze_data.
  repeat first
    [ apply appends_bind; [|intros ?]
    | apply appends_for_each; intros ?
    | apply appends_print
    | apply appends_nothing; solve [auto with preserves] ].
Qed.

(** C9. [analyze_data] changes no dataframe object and no file, whatever
    it is given and whether it returns or raises: every object of the
    heap, the caller's table among them, is the same before and after
    the call. Only the standard output grows. *)
Theorem analyze_data_read_only
        (argsort : list Z -> list nat) (df : loc) (w : World) :
  heap (snd (analyze_data argsort df w)) = heap w /\
  files (snd (analyze_data argsort df w)) = files w /\
  exists out,
    stdout (snd (analyze_data argsort df w)) = stdout w ++ out.
Proof.
  split; [apply analyze_data_heap|]. split; [apply analyze_data_files|].
  apply analyze_data_stdout.
Qed.


